(** * CI failure diagnosis pipeline: log segmentation, error extraction,
      context building and response interpretation.

    A shallow embedding of [phase1/github_client.py], [phase1/log_parser.py]
    and [phase1/llm_analyzer.py], with the confidence colour of
    [phase1/cli.py].

    Text of logs is modelled by [string]: a sequence of characters with code
    points 0..255, for which the character tables of Python's [str] and [re]
    are written out in full.  The record types of [phase1/models.py] are
    plain data holders; they are declared here from the way the three
    modules construct and read them.  Exceptions are results: a function
    that can raise returns an [outcome]. *)

From Stdlib Require Import ZArith Ascii String List Lia Bool.
From Stdlib Require Import Floats.SpecFloat DecimalString.
From stdpp Require Import base list.
Import ListNotations.

Open Scope string_scope.
Open Scope list_scope.

(** ** Text primitives of Python's [str] *)

Module Text.

Definition LF : ascii := "010"%char.

(** [s.split(sep)] for a one-character separator: never the empty list. *)
Fixpoint split (sep : ascii) (s : string) : list string :=
  match s with
  | EmptyString => [EmptyString]
  | String c s' =>
      if Ascii.eqb c sep then EmptyString :: split sep s'
      else match split sep s' with
           | l :: ls => String c l :: ls
           | [] => [String c EmptyString]
           end
  end.

(** [sep.join(parts)] *)
Fixpoint join (sep : string) (parts : list string) : string :=
  match parts with
  | [] => EmptyString
  | [p] => p
  | p :: ps => p ++ sep ++ join sep ps
  end.

(** [s.startswith(p)] *)
Fixpoint startswith (p s : string) : bool :=
  match p, s with
  | EmptyString, _ => true
  | String a p', String b s' => Ascii.eqb b a && startswith p' s'
  | String _ _, EmptyString => false
  end.

(** [needle in s] *)
Fixpoint contains (needle s : string) : bool :=
  startswith needle s ||
  match s with
  | EmptyString => false
  | String _ s' => contains needle s'
  end.

(** [str.isspace] on one character (code points below 256). *)
Definition isspace (c : ascii) : bool :=
  let n := nat_of_ascii c in
  (((9 <=? n) && (n <=? 13)) || ((28 <=? n) && (n <=? 32))
   || (n =? 133) || (n =? 160))%nat.

Fixpoint lstrip (s : string) : string :=
  match s with
  | String c s' => if isspace c then lstrip s' else s
  | EmptyString => EmptyString
  end.

(** Drops trailing white space: a character is kept when it is not white
    space or when something is kept after it. *)
Fixpoint rstrip (s : string) : string :=
  match s with
  | EmptyString => EmptyString
  | String c s' =>
      match rstrip s' with
      | EmptyString => if isspace c then EmptyString else String c EmptyString
      | r => String c r
      end
  end.

(** [s.strip()] *)
Definition strip (s : string) : string := rstrip (lstrip s).

(** Truth value of a [str]: non-empty. *)
Definition truthy (s : string) : bool :=
  match s with EmptyString => false | _ => true end.

(** [s[:n]] *)
Fixpoint prefix_chars (n : nat) (s : string) : string :=
  match n, s with
  | S n', String c s' => String c (prefix_chars n' s')
  | _, _ => EmptyString
  end.

End Text.

(** ** Data model ([phase1/models.py], as used by the three modules) *)

Record StepRun := mkStepRun {
  step_name : string;
  step_status : string;
  step_conclusion : option string;
  step_number : Z;
  started_at : option string;
  completed_at : option string;
  log_content : option string
}.

Record JobRun := mkJobRun {
  job_name : string;
  job_status : string;
  job_conclusion : option string;
  job_steps : list StepRun
}.

Record WorkflowRun := mkWorkflowRun {
  run_id : Z;
  run_name : string;
  run_conclusion : option string;
  head_branch : string;
  head_sha : string;
  repository : string;
  jobs : list JobRun
}.

(** [conclusion == "failure"] *)
Definition is_failure (conclusion : option string) : bool :=
  match conclusion with
  | Some c => String.eqb c "failure"
  | None => false
  end.

(** ** LogSegmenter: [GitHubClient._attach_logs_to_steps] *)

Definition step_marker : string := "##[group]".

Definition is_marker (line : string) : bool := Text.contains step_marker line.

(** [step.log_content = text] *)
Definition set_log_content (text : string) (s : StepRun) : StepRun :=
  mkStepRun (step_name s) (step_status s) (step_conclusion s) (step_number s)
            (started_at s) (completed_at s) (Some text).

(** The local variables of the loop together with [job.steps]. *)
Record seg_state := mkSeg {
  current_step_idx : nat;
  current_log_buffer : list string;
  steps : list StepRun
}.

(** [if current_log_buffer and current_step_idx > 0:
       job.steps[current_step_idx - 1].log_content = LF.join(buffer)] *)
Definition save_buffer (st : seg_state) : list StepRun :=
  match current_log_buffer st with
  | [] => steps st
  | _ :: _ =>
      if (0 <? current_step_idx st)%nat
      then alter (set_log_content
                    (Text.join (String Text.LF "") (current_log_buffer st)))
                 (current_step_idx st - 1) (steps st)
      else steps st
  end.

(** One iteration of [for line in logs.split(LF)]. *)
Definition attach_line (st : seg_state) (line : string) : seg_state :=
  let st' :=
    if is_marker line && (current_step_idx st <? length (steps st))%nat
    then mkSeg (current_step_idx st + 1) [] (save_buffer st)
    else st in
  mkSeg (current_step_idx st') (current_log_buffer st' ++ [line]) (steps st').

Definition _attach_logs_to_steps (job_steps : list StepRun) (logs : string)
  : list StepRun :=
  save_buffer (fold_left attach_line (Text.split Text.LF logs)
                         (mkSeg 0 [] job_steps)).

(** Log contents attached to the steps, in step order. *)
Definition segments (sts : list StepRun) : list string :=
  omap log_content sts.

Definition count_markers (lines : list string) : nat :=
  length (List.filter is_marker lines).

(** The lines of a log from its first marker line on. *)
Fixpoint from_first_marker (lines : list string) : list string :=
  match lines with
  | [] => []
  | l :: ls => if is_marker l then lines else from_first_marker ls
  end.

(** Reference segmentation, used in the proofs only: [cut n lines] is the
    text before the first marker and then one block per marker, for the
    first [n] markers. *)
Fixpoint cut (n : nat) (lines : list string) : list string * list (list string) :=
  match lines with
  | [] => ([], [])
  | l :: ls =>
      if is_marker l && (0 <? n)%nat
      then ([], (l :: fst (cut (n - 1) ls)) :: snd (cut (n - 1) ls))
      else (l :: fst (cut n ls), snd (cut n ls))
  end.

(** Block [k] of a segmentation goes to step [i + k]. *)
Fixpoint assign (i : nat) (blocks : list (list string))
    (c : list (option string)) : list (option string) :=
  match blocks with
  | [] => c
  | b :: bs => assign (S i) bs (<[i := Some (Text.join (String Text.LF "") b)]> c)
  end.

(** A line of text: without a line feed. *)
Definition no_LF (s : string) : Prop := Text.contains (String Text.LF "") s = false.

(** The log contents of the steps, set or not. *)
Definition contents (sts : list StepRun) : list (option string) :=
  log_content <$> sts.

(** Steps as [_get_jobs] builds them: without log content. *)
Definition fresh (sts : list StepRun) : Prop :=
  Forall (fun s => log_content s = None) sts.

(** A line that is no boundary marker. *)
Definition plain (l : string) : Prop := is_marker l = false.

(** A step without its log: the fields that [_get_jobs] sets. *)
Definition clear_log (s : StepRun) : StepRun :=
  mkStepRun (step_name s) (step_status s) (step_conclusion s) (step_number s)
            (started_at s) (completed_at s) None.

(** ** The fragment of Python's [re] that the pattern tables use

    A backtracking matcher for literals, the classes [.], [\w], [\d], [\s]
    and bracket sets, greedy [+] on a class, named groups, [^] and
    concatenation.  Alternatives are tried in the order of [re]: a greedy
    repetition first takes as many characters as it can, then gives them
    back one by one. *)

Module Re.

Inductive atom :=
| Chr (c : ascii)   (* a literal character *)
| Any               (* .  *)
| Word              (* \w *)
| Digit             (* \d *)
| Space             (* \s *).

Inductive cls :=
| Is (a : atom)
| OneOf (members : list atom)   (* [...] *).

Coercion Is : atom >-> cls.

Inductive regex :=
| One (c : cls)
| Plus (c : cls)                      (* c+ *)
| Cat (r1 r2 : regex)
| Group (name : string) (r : regex)   (* (?P<name>r) *)
| Bol                                 (* ^ *)
| Eps.

(** A literal text. *)
Fixpoint lit (s : string) : regex :=
  match s with
  | EmptyString => Eps
  | String c s' => Cat (One (Chr c)) (lit s')
  end.

Definition cat (rs : list regex) : regex := fold_right Cat Eps rs.

Definition between (lo hi n : nat) : bool := (lo <=? n)%nat && (n <=? hi)%nat.

(** [str.lower] on one character. *)
Definition lower (c : ascii) : ascii :=
  let n := nat_of_ascii c in
  if between 65 90 n || (between 192 222 n && negb (n =? 215)%nat)
  then ascii_of_nat (n + 32) else c.

(** Unicode word characters below 256: letters, digits, numeric signs and
    the underscore. *)
Definition isword (c : ascii) : bool :=
  let n := nat_of_ascii c in
  between 48 57 n || between 65 90 n || (n =? 95)%nat || between 97 122 n
  || (n =? 170)%nat || between 178 179 n || (n =? 181)%nat
  || between 185 186 n || between 188 190 n
  || between 192 214 n || between 216 246 n || between 248 255 n.

Definition isdigit (c : ascii) : bool := between 48 57 (nat_of_ascii c).

(** [ic] is the IGNORECASE flag. *)
Definition atom_match (ic : bool) (a : atom) (x : ascii) : bool :=
  match a with
  | Chr c => if ic then Ascii.eqb (lower x) (lower c) else Ascii.eqb x c
  | Any => negb (Ascii.eqb x Text.LF)
  | Word => isword x
  | Digit => isdigit x
  | Space => Text.isspace x
  end.

Definition cls_match (ic : bool) (k : cls) (x : ascii) : bool :=
  match k with
  | Is a => atom_match ic a x
  | OneOf members => existsb (fun a => atom_match ic a x) members
  end.

(** The text between two positions [s] and its suffix [s']. *)
Definition consumed (s s' : string) : string :=
  Text.prefix_chars (String.length s - String.length s') s.

Definition captures := list (string * string).

Section Run.
Context {A : Type}.

(** One or more characters of a class, the longest run first. *)
Fixpoint many (p : ascii -> bool) (s : string) (k : string -> option A)
  : option A :=
  match s with
  | String c s' =>
      if p c
      then match many p s' k with
           | Some r => Some r
           | None => k s'
           end
      else None
  | EmptyString => None
  end.

(** [run ic r at0 s cs k]: match [r] at the front of [s] and hand what is
    left to the continuation [k]; [at0] says whether [s] is the whole
    subject.  [None] is failure, on which the caller backtracks. *)
Fixpoint run (ic : bool) (r : regex) (at0 : bool) (s : string) (cs : captures)
    (k : bool -> string -> captures -> option A) : option A :=
  match r with
  | One c =>
      match s with
      | String x s' => if cls_match ic c x then k false s' cs else None
      | EmptyString => None
      end
  | Plus c => many (cls_match ic c) s (fun s' => k false s' cs)
  | Cat r1 r2 =>
      run ic r1 at0 s cs (fun at0' s' cs' => run ic r2 at0' s' cs' k)
  | Group name r1 =>
      run ic r1 at0 s cs
          (fun at0' s' cs' => k at0' s' ((name, consumed s s') :: cs'))
  | Bol => if at0 then k at0 s cs else None
  | Eps => k at0 s cs
  end.

End Run.

(** A match object: [group(0)] and the named groups. *)
Record rmatch := mkMatch { group0 : string; groups : captures }.

Fixpoint assoc (name : string) (cs : captures) : option string :=
  match cs with
  | [] => None
  | (n, v) :: cs' => if String.eqb n name then Some v else assoc name cs'
  end.

(** [m.group(name)] *)
Definition group (m : rmatch) (name : string) : option string :=
  assoc name (groups m).

Definition match_at (ic : bool) (r : regex) (at0 : bool) (s : string)
  : option rmatch :=
  run ic r at0 s [] (fun _ s' cs => Some (mkMatch (consumed s s') cs)).

(** [re.match(r, s)]: a match at the start of [s]. *)
Definition rematch (ic : bool) (r : regex) (s : string) : option rmatch :=
  match_at ic r true s.

Fixpoint search_from (ic : bool) (r : regex) (at0 : bool) (s : string)
  : option rmatch :=
  match match_at ic r at0 s with
  | Some m => Some m
  | None =>
      match s with
      | String _ s' => search_from ic r false s'
      | EmptyString => None
      end
  end.

(** [re.search(r, s)]: the leftmost match. *)
Definition search (ic : bool) (r : regex) (s : string) : option rmatch :=
  search_from ic r true s.

End Re.

(** ** ErrorExtractor: [phase1/log_parser.py] *)

Record ErrorContext := mkErrorContext {
  error_message : string;
  error_type : string;
  line_number : option Z;
  file_path : option string;
  stack_trace : list string;
  surrounding_context : list string
}.

Import Re.

Definition DQ : ascii := "034"%char.

(** [LogParser.ERROR_PATTERNS], in the order of the source. *)
Definition python_error_re : regex :=
  cat [Group "type" (cat [Plus Word; lit "Error"]); lit ": ";
       Group "message" (Plus Any)].
Definition test_failure_re : regex :=
  cat [lit "FAILED "; Plus Any; lit "::"; Group "test" (Plus Word)].
Definition build_error_re : regex :=
  cat [lit "error: "; Group "message" (Plus Any)].
Definition npm_error_re : regex :=
  cat [lit "npm ERR! "; Group "message" (Plus Any)].
Definition typescript_error_re : regex :=
  cat [lit "TS"; Plus Digit; lit ": "; Group "message" (Plus Any)].
Definition generic_error_re : regex :=
  cat [lit "Error: "; Group "message" (Plus Any)].

Definition ERROR_PATTERNS : list (regex * string) :=
  [ (python_error_re, "python_error");
    (test_failure_re, "test_failure");
    (build_error_re, "build_error");
    (npm_error_re, "npm_error");
    (typescript_error_re, "typescript_error");
    (generic_error_re, "generic_error") ].

(** [LogParser.STACK_TRACE_PATTERNS] *)
Definition python_frame_re : regex :=
  cat [Bol; Plus Space; lit "File "; One (Chr DQ); Group "file" (Plus Any);
       One (Chr DQ); lit ", line "; Group "line" (Plus Digit)].
Definition javascript_frame_re : regex :=
  cat [Bol; Plus Space; lit "at "; Plus Any; lit " ("; Group "file" (Plus Any);
       lit ":"; Group "line" (Plus Digit)].
Definition generic_frame_re : regex :=
  cat [Bol; Plus Space;
       Group "file" (Plus (OneOf [Word; Chr "/"; Chr "."; Chr "-"]));
       lit ":"; Group "line" (Plus Digit)].

Definition STACK_TRACE_PATTERNS : list regex :=
  [python_frame_re; javascript_frame_re; generic_frame_re].

(** [int(digits)] for a text matched by [\d+].  (The interpreter's optional
    limit on the length of a decimal text is not modelled.) *)
Definition int_of_digits (s : string) : Z :=
  fold_left (fun acc c => 10 * acc + (Z.of_nat (nat_of_ascii c) - 48))%Z
            (list_ascii_of_string s) 0%Z.

(** [lines[a:b]] for [0 <= a] and [0 <= b]. *)
Definition slice {A} (l : list A) (a b : Z) : list A :=
  take (Z.to_nat b - Z.to_nat a) (drop (Z.to_nat a) l).

(** The variables that the lookahead loop updates. *)
Record frame_state := mkFrames {
  fs_file_path : option string;
  fs_line_number : option Z;
  fs_stack_trace : list string
}.

(** [not file_path] *)
Definition unset (file_path : option string) : bool :=
  match file_path with
  | None => true
  | Some f => negb (Text.truthy f)
  end.

(** [for pattern in self.STACK_TRACE_PATTERNS: ... break]: the first
    pattern that matches appends the stripped line and, while no primary
    file is set, sets the primary file and line.  Each pattern defines both
    groups, so neither [group] is [None] at a match. *)
Fixpoint check_frame (patterns : list regex) (line : string) (st : frame_state)
  : frame_state :=
  match patterns with
  | [] => st
  | pattern :: rest =>
      match rematch false pattern line with
      | Some stack_match =>
          let stack_trace := fs_stack_trace st ++ [Text.strip line] in
          if unset (fs_file_path st)
          then mkFrames (group stack_match "file")
                        (int_of_digits <$> group stack_match "line")
                        stack_trace
          else mkFrames (fs_file_path st) (fs_line_number st) stack_trace
      | None => check_frame rest line st
      end
  end.

(** [any(re.search(p[0], line, re.IGNORECASE) for p in self.ERROR_PATTERNS)] *)
Definition matches_error (line : string) : bool :=
  existsb (fun p => match search true (fst p) line with
                    | Some _ => true
                    | None => false
                    end) ERROR_PATTERNS.

(** [not line.strip() or any(...)] *)
Definition stops (line : string) : bool :=
  negb (Text.truthy (Text.strip line)) || matches_error line.

(** [for i in range(...)] of the lookahead, with its [break].  The indices
    are below [len(lines)], so [lines[i]] is defined. *)
Fixpoint lookahead (indices : list nat) (lines : list string) (st : frame_state)
  : frame_state :=
  match indices with
  | [] => st
  | i :: rest =>
      let line := nth i lines "" in
      let st' := check_frame STACK_TRACE_PATTERNS line st in
      if stops line then st' else lookahead rest lines st'
  end.

(** [range(a, b)] *)
Definition range (a b : nat) : list nat := seq a (b - a).

Definition _extract_error_context (lines : list string) (error_line_idx : nat)
    (m : rmatch) (error_type : string) : ErrorContext :=
  let error_message := group0 m in
  let st :=
    lookahead (range (error_line_idx + 1)
                     (Nat.min (error_line_idx + 20) (length lines)))
              lines (mkFrames None None []) in
  let context_start := Z.max 0 (Z.of_nat error_line_idx - 5) in
  let context_end :=
    Z.min (Z.of_nat (length lines)) (Z.of_nat error_line_idx + 10) in
  let surrounding_context := slice lines context_start context_end in
  mkErrorContext error_message error_type
    (fs_line_number st) (fs_file_path st) (fs_stack_trace st)
    (Text.strip <$>
       List.filter (fun line => Text.truthy (Text.strip line))
                   surrounding_context).

(** [for pattern, error_type in self.ERROR_PATTERNS: ... break].  The
    record that [_extract_error_context] returns is an object and so is
    true: it is always appended. *)
Fixpoint try_patterns (patterns : list (regex * string)) (lines : list string)
    (i : nat) (line : string) (errors : list ErrorContext)
  : list ErrorContext :=
  match patterns with
  | [] => errors
  | (pattern, error_type) :: rest =>
      match search true pattern line with
      | Some m => errors ++ [_extract_error_context lines i m error_type]
      | None => try_patterns rest lines i line errors
      end
  end.

(** [enumerate(lines)] *)
Definition enumerate {A} (l : list A) : list (nat * A) :=
  combine (seq 0 (length l)) l.

Definition parse_lines (lines : list string) : list ErrorContext :=
  fold_left (fun errors il =>
               try_patterns ERROR_PATTERNS lines (fst il) (snd il) errors)
            (enumerate lines) [].

(** [LogParser.parse_step_logs] *)
Definition parse_step_logs (step : StepRun) : list ErrorContext :=
  match log_content step with
  | None => []
  | Some text =>
      if negb (Text.truthy text) || negb (is_failure (step_conclusion step))
      then []
      else parse_lines (Text.split Text.LF text)
  end.

(** *** Notions used to state the extractor's properties *)

(** The match of the first stack-trace pattern that matches a line. *)
Fixpoint first_match (patterns : list regex) (line : string) : option rmatch :=
  match patterns with
  | [] => None
  | pattern :: rest =>
      match rematch false pattern line with
      | Some m => Some m
      | None => first_match rest line
      end
  end.

Definition frame_match (line : string) : option rmatch :=
  first_match STACK_TRACE_PATTERNS line.

(** A stack-frame-shaped line. *)
Definition is_frame (line : string) : bool :=
  match frame_match line with Some _ => true | None => false end.

(** The lines up to and including the first one on which the scan stops. *)
Fixpoint upto_stop (ls : list string) : list string :=
  match ls with
  | [] => []
  | l :: ls' => if stops l then [l] else l :: upto_stop ls'
  end.

(** The lines that the lookahead examines after a match at index [i]. *)
Definition lookahead_window (lines : list string) (i : nat) : list string :=
  upto_stop (take 19 (drop (S i) lines)).

(** The lookahead window in the words of the specification: up to 20 lines
    after the match. *)
Definition lookahead_window_spec (lines : list string) (i : nat) : list string :=
  upto_stop (take 20 (drop (S i) lines)).

Definition nonblank (line : string) : bool := Text.truthy (Text.strip line).


(** Does every match of [r] define group [g]? *)
Fixpoint sets (g : string) (r : regex) : bool :=
  match r with
  | Group n r1 => String.eqb n g || sets g r1
  | Cat r1 r2 => sets g r1 || sets g r2
  | _ => false
  end.

(** Does every match of [r] take at least one character? *)
Fixpoint consumes (r : regex) : bool :=
  match r with
  | One _ | Plus _ => true
  | Cat r1 r2 => consumes r1 || consumes r2
  | Group _ r1 => consumes r1
  | Bol | Eps => false
  end.

(** Does every group of [r] take at least one character? *)
Fixpoint groups_consume (r : regex) : bool :=
  match r with
  | Group _ r1 => consumes r1 && groups_consume r1
  | Cat r1 r2 => groups_consume r1 && groups_consume r2
  | _ => true
  end.

(** Two logs on which the windows of the code and of the specification
    differ: an error on line 0, then 19 plain lines and a stack frame on
    line 20; an error on line 0, then 11 plain lines. *)
Definition lookahead_cex : list string :=
  "ValueError: boom" :: repeat "detail" 19 ++ ["  src/app.py:12"].


(** A group with a non-empty value. *)
Definition filled (g : string) (cs : captures) : Prop :=
  exists v, assoc g cs = Some v /\ v <> "".

(** What one pass over the stack-trace patterns does to the loop state. *)
Definition note_frame (line : string) (st : frame_state) : frame_state :=
  match frame_match line with
  | None => st
  | Some fm =>
      if unset (fs_file_path st)
      then mkFrames (group fm "file") (int_of_digits <$> group fm "line")
                    (fs_stack_trace st ++ [Text.strip line])
      else mkFrames (fs_file_path st) (fs_line_number st)
                    (fs_stack_trace st ++ [Text.strip line])
  end.

(** The characters of a log text. *)
Definition all_ascii : list ascii := ascii_of_nat <$> seq 0 256.

(** Does class [k] accept no white space? *)
Definition visible_cls (ic : bool) (k : cls) : bool :=
  forallb (fun x => implb (cls_match ic k x) (negb (Text.isspace x))) all_ascii.

(** Does every match of [r] start with a character that is no white
    space? *)
Fixpoint starts_visible (ic : bool) (r : regex) : bool :=
  match r with
  | One c | Plus c => visible_cls ic c
  | Cat r1 _ => starts_visible ic r1
  | Group _ r1 => starts_visible ic r1
  | Bol | Eps => false
  end.

(** ** Replies of the reasoning service and Python's [json] and [float]

    A reply is a Python [str]: a sequence of Unicode code points, here
    [list N].  [json.loads] follows CPython's decoder (the C scanner, which
    reads ASCII digits only).  A [float] is an IEEE 754 binary64 value,
    [spec_float]; decimal texts are converted with round-to-nearest-even. *)

Definition ustr := list N.

(** Code points of a text written with characters below 256. *)
Definition codes (s : string) : ustr :=
  N_of_ascii <$> list_ascii_of_string s.

Module U.

Definition eqb (a b : ustr) : bool :=
  (length a =? length b)%nat && forallb (fun p => N.eqb (fst p) (snd p)) (combine a b).

(** [s.startswith(p)] *)
Fixpoint startswith (p s : ustr) : bool :=
  match p, s with
  | [], _ => true
  | a :: p', b :: s' => N.eqb b a && startswith p' s'
  | _ :: _, [] => false
  end.

(** [str.isspace] on one code point. *)
Definition isspace (c : N) : bool :=
  (((9 <=? c) && (c <=? 13)) || ((28 <=? c) && (c <=? 32))
   || (c =? 133) || (c =? 160) || (c =? 5760)
   || ((8192 <=? c) && (c <=? 8202)) || (c =? 8232) || (c =? 8233)
   || (c =? 8239) || (c =? 8287) || (c =? 12288))%N.

Fixpoint lstrip (s : ustr) : ustr :=
  match s with
  | c :: s' => if isspace c then lstrip s' else s
  | [] => []
  end.

Fixpoint rstrip (s : ustr) : ustr :=
  match s with
  | [] => []
  | c :: s' =>
      match rstrip s' with
      | [] => if isspace c then [] else [c]
      | r => c :: r
      end
  end.

(** [s.strip()] *)
Definition strip (s : ustr) : ustr := rstrip (lstrip s).

(** [s.split(sep)] for a one-character separator. *)
Fixpoint split (sep : N) (s : ustr) : list ustr :=
  match s with
  | [] => [[]]
  | c :: s' =>
      if N.eqb c sep then [] :: split sep s'
      else match split sep s' with
           | l :: ls => (c :: l) :: ls
           | [] => [[c]]
           end
  end.

(** [sep.join(parts)] *)
Fixpoint join (sep : ustr) (parts : list ustr) : ustr :=
  match parts with
  | [] => []
  | [p] => p
  | p :: ps => p ++ sep ++ join sep ps
  end.

Definition isdigit (c : N) : bool := ((48 <=? c) && (c <=? 57))%N.

(** Leading ASCII digits and what follows them. *)
Fixpoint digits (s : ustr) : ustr * ustr :=
  match s with
  | c :: s' =>
      if isdigit c then (c :: fst (digits s'), snd (digits s')) else ([], s)
  | [] => ([], [])
  end.

(** The number written by decimal digits. *)
Definition nat_value (ds : ustr) : Z :=
  fold_left (fun acc c => 10 * acc + (Z.of_N c - 48))%Z ds 0%Z.

(** [str.lower] on ASCII letters. *)
Definition lower (c : N) : N :=
  if ((65 <=? c) && (c <=? 90))%N then (c + 32)%N else c.

End U.

(** *** binary64 *)

Module Float.

Definition prec : Z := 53.
Definition emax : Z := 1024.

Definition float := spec_float.

Definition zero : float := S754_zero false.
Definition half : float := S754_finite false 4503599627370496 (-53).
Definition one : float := S754_finite false 4503599627370496 (-52).

(** The binary64 value nearest to [num / den], ties to even; infinite on
    overflow. *)
Definition of_ratio (neg : bool) (num den : positive) : float :=
  SFdiv prec emax (S754_finite neg num 0) (S754_finite false den 0).

(** The value of the decimal text [(-1)^neg * m * 10^e]. *)
Definition of_decimal (neg : bool) (m e : Z) : float :=
  match m with
  | Zpos p =>
      if (0 <=? e)%Z then of_ratio neg (p * Z.to_pos (10 ^ e)) 1
      else of_ratio neg p (Z.to_pos (10 ^ (- e)))
  | _ => S754_zero neg
  end.



End Float.

(** *** Python values that [json.loads] builds *)

#[local] Set Warnings "-register-all".

Inductive pyval :=
| PyNone
| PyBool (b : bool)
| PyInt (z : Z)
| PyFloat (f : Float.float)
| PyStr (s : ustr)
| PyList (items : list pyval)
| PyDict (items : list (ustr * pyval)).

#[local] Set Warnings "+register-all".

(** [d.get(key, default)] on the items of a [dict] built from pairs in
    source order: a later pair with the same key replaces an earlier one. *)
Fixpoint dict_get (items : list (ustr * pyval)) (key : ustr) (default : pyval)
  : pyval :=
  match items with
  | [] => default
  | (k, v) :: rest =>
      dict_get rest key (if U.eqb k key then v else default)
  end.

Inductive exn :=
| AttributeError | TypeError | ValueError | OverflowError.

Inductive outcome (A : Type) :=
| Returned (a : A)
| Raised (e : exn).
Arguments Returned {A} a.
Arguments Raised {A} e.

Module Json.

(** Result of a parser: a value and the rest of the text, a
    [JSONDecodeError], or exhausted fuel. *)
Inductive pres (A : Type) :=
| POk (a : A) (rest : ustr)
| PErr
| PFuel.
Arguments POk {A} a rest.
Arguments PErr {A}.
Arguments PFuel {A}.

(** [WHITESPACE.match(s, end).end()]: space, tab, line feed, return. *)
Fixpoint skip_ws (s : ustr) : ustr :=
  match s with
  | c :: s' =>
      if ((c =? 32) || (c =? 9) || (c =? 10) || (c =? 13))%N
      then skip_ws s' else s
  | [] => []
  end.

Definition hex_digit (c : N) : option N :=
  if ((48 <=? c) && (c <=? 57))%N then Some (c - 48)%N
  else if ((65 <=? c) && (c <=? 70))%N then Some (c - 55)%N
  else if ((97 <=? c) && (c <=? 102))%N then Some (c - 87)%N
  else None.

(** The four hexadecimal digits of a [\uXXXX] escape. *)
Definition hex4 (a b c d : N) : option N :=
  match hex_digit a, hex_digit b, hex_digit c, hex_digit d with
  | Some x, Some y, Some z, Some w => Some (((x * 16 + y) * 16 + z) * 16 + w)%N
  | _, _, _, _ => None
  end.

(** The table [BACKSLASH]. *)
Definition unescape (c : N) : option N :=
  if (c =? 34)%N then Some 34%N            (* quote *)
  else if (c =? 92)%N then Some 92%N       (* backslash *)
  else if (c =? 47)%N then Some 47%N       (* slash *)
  else if (c =? 98)%N then Some 8%N        (* b *)
  else if (c =? 102)%N then Some 12%N      (* f *)
  else if (c =? 110)%N then Some 10%N      (* n *)
  else if (c =? 114)%N then Some 13%N      (* r *)
  else if (c =? 116)%N then Some 9%N       (* t *)
  else None.

Definition push (c : N) (r : option (ustr * ustr)) : option (ustr * ustr) :=
  match r with
  | Some (text, rest) => Some (c :: text, rest)
  | None => None
  end.

(** [scanstring], strict, from just after the opening quote: the decoded
    text and what follows the closing quote. *)
Fixpoint scan_string (s : ustr) : option (ustr * ustr) :=
  match s with
  | [] => None
  | c :: s1 =>
      if (c =? 34)%N then Some ([], s1)
      else if (c =? 92)%N then
        match s1 with
        | [] => None
        | e :: s2 =>
            if (e =? 117)%N then
              match s2 with
              | h1 :: h2 :: h3 :: h4 :: s6 =>
                  match hex4 h1 h2 h3 h4 with
                  | None => None
                  | Some uni =>
                      if ((55296 <=? uni) && (uni <=? 56319))%N then
                        match s6 with
                        | b :: u :: s8 =>
                            if ((b =? 92) && (u =? 117))%N then
                              match s8 with
                              | g1 :: g2 :: g3 :: g4 :: s12 =>
                                  match hex4 g1 g2 g3 g4 with
                                  | None => None
                                  | Some uni2 =>
                                      if ((56320 <=? uni2) && (uni2 <=? 57343))%N
                                      then push (65536 + (N.lor (N.shiftl (uni - 55296) 10)
                                                                (uni2 - 56320)))%N
                                                (scan_string s12)
                                      else push uni (scan_string s6)
                                  end
                              | _ => None
                              end
                            else push uni (scan_string s6)
                        | _ => push uni (scan_string s6)
                        end
                      else push uni (scan_string s6)
                  end
              | _ => None
              end
            else
              match unescape e with
              | Some ch => push ch (scan_string s2)
              | None => None
              end
        end
      else if (c <? 32)%N then None
      else push c (scan_string s1)
  end.

(** [NUMBER_RE] at the front of [s], part by part: an optional minus
    sign; a zero or a digit run that does not start with a zero; a dot and
    digits; an exponent mark, an optional sign and digits.  A fraction or
    an exponent without digits is not part of the number. *)
Definition scan_minus (s : ustr) : bool * ustr :=
  match s with
  | c :: s' => if (c =? 45)%N then (true, s') else (false, s)
  | [] => (false, s)
  end.

Definition scan_int (s : ustr) : option (ustr * ustr) :=
  match s with
  | d :: s' =>
      if negb (U.isdigit d) then None
      else if (d =? 48)%N then Some ([d], s')
      else Some (d :: fst (U.digits s'), snd (U.digits s'))
  | [] => None
  end.

Definition scan_frac (s : ustr) : option ustr * ustr :=
  match s with
  | dot :: s' =>
      if (dot =? 46)%N
      then match fst (U.digits s') with
           | [] => (None, s)
           | ds => (Some ds, snd (U.digits s'))
           end
      else (None, s)
  | [] => (None, s)
  end.

Definition scan_exp_sign (s : ustr) : bool * ustr :=
  match s with
  | c :: s' =>
      if (c =? 45)%N then (true, s')
      else if (c =? 43)%N then (false, s')
      else (false, s)
  | [] => (false, s)
  end.

Definition scan_exp (s : ustr) : option Z * ustr :=
  match s with
  | e :: s' =>
      if ((e =? 101) || (e =? 69))%N then
        let s'' := snd (scan_exp_sign s') in
        match fst (U.digits s'') with
        | [] => (None, s)
        | ds => (Some (if fst (scan_exp_sign s') then - U.nat_value ds
                       else U.nat_value ds)%Z,
                 snd (U.digits s''))
        end
      else (None, s)
  | [] => (None, s)
  end.

Definition scan_number (s : ustr)
  : option (bool * ustr * option ustr * option Z * ustr) :=
  match scan_int (snd (scan_minus s)) with
  | None => None
  | Some (int_digits, s1) =>
      Some (fst (scan_minus s), int_digits,
            fst (scan_frac s1), fst (scan_exp (snd (scan_frac s1))),
            snd (scan_exp (snd (scan_frac s1))))
  end.

(** The value of a number token: an [int] when it has neither fraction nor
    exponent, a [float] otherwise. *)
Definition number_value (neg : bool) (int_digits : ustr) (frac : option ustr)
    (exponent : option Z) : pyval :=
  match frac, exponent with
  | None, None =>
      PyInt (if neg then - U.nat_value int_digits else U.nat_value int_digits)%Z
  | _, _ =>
      let fd := match frac with Some ds => ds | None => [] end in
      let e := match exponent with Some e => e | None => 0%Z end in
      PyFloat (Float.of_decimal neg (U.nat_value (int_digits ++ fd))
                                (e - Z.of_nat (length fd)))
  end.

(** The scalar values of [scan_once], in its order of tests. *)
Definition scan_scalar (s : ustr) : pres pyval :=
  if U.startswith (codes "null") s then POk PyNone (drop 4 s)
  else if U.startswith (codes "true") s then POk (PyBool true) (drop 4 s)
  else if U.startswith (codes "false") s then POk (PyBool false) (drop 5 s)
  else
    match scan_number s with
    | Some (neg, int_digits, frac, exponent, rest) =>
        POk (number_value neg int_digits frac exponent) rest
    | None =>
        if U.startswith (codes "NaN") s then POk (PyFloat S754_nan) (drop 3 s)
        else if U.startswith (codes "Infinity") s
        then POk (PyFloat (S754_infinity false)) (drop 8 s)
        else if U.startswith (codes "-Infinity") s
        then POk (PyFloat (S754_infinity true)) (drop 9 s)
        else PErr
    end.

(** [scan_once], [JSONArray] and [JSONObject].  [parse_elements] starts at
    an element of an array, [parse_members] just after the opening quote of
    a key; both carry the items read so far, last first. *)
Fixpoint parse_value (fuel : nat) (s : ustr) : pres pyval :=
  match fuel with
  | O => PFuel
  | S fuel' =>
      match s with
      | [] => PErr
      | c :: s1 =>
          if (c =? 34)%N then
            match scan_string s1 with
            | Some (text, rest) => POk (PyStr text) rest
            | None => PErr
            end
          else if (c =? 123)%N then
            match skip_ws s1 with
            | c' :: s2 =>
                if (c' =? 125)%N then POk (PyDict []) s2
                else if (c' =? 34)%N then parse_members fuel' s2 []
                else PErr
            | [] => PErr
            end
          else if (c =? 91)%N then
            match skip_ws s1 with
            | c' :: s2 =>
                if (c' =? 93)%N then POk (PyList []) s2
                else parse_elements fuel' (c' :: s2) []
            | [] => PErr
            end
          else scan_scalar s
      end
  end
with parse_elements (fuel : nat) (s : ustr) (acc : list pyval) : pres pyval :=
  match fuel with
  | O => PFuel
  | S fuel' =>
      match parse_value fuel' s with
      | POk v rest =>
          match skip_ws rest with
          | c :: s1 =>
              if (c =? 93)%N then POk (PyList (rev (v :: acc))) s1
              else if (c =? 44)%N
              then parse_elements fuel' (skip_ws s1) (v :: acc)
              else PErr
          | [] => PErr
          end
      | PErr => PErr
      | PFuel => PFuel
      end
  end
with parse_members (fuel : nat) (s : ustr) (acc : list (ustr * pyval))
  : pres pyval :=
  match fuel with
  | O => PFuel
  | S fuel' =>
      match scan_string s with
      | None => PErr
      | Some (key, rest) =>
          match skip_ws rest with
          | colon :: s1 =>
              if negb (colon =? 58)%N then PErr
              else
                match parse_value fuel' (skip_ws s1) with
                | POk v rest' =>
                    match skip_ws rest' with
                    | c :: s2 =>
                        if (c =? 125)%N
                        then POk (PyDict (rev ((key, v) :: acc))) s2
                        else if (c =? 44)%N then
                          match skip_ws s2 with
                          | q :: s3 =>
                              if (q =? 34)%N
                              then parse_members fuel' s3 ((key, v) :: acc)
                              else PErr
                          | [] => PErr
                          end
                        else PErr
                    | [] => PErr
                    end
                | PErr => PErr
                | PFuel => PFuel
                end
          | [] => PErr
          end
      end
  end.

(** Every call of the three parsers but the first follows at least one
    consumed character, and they alternate: twice the length of the text
    and two is fuel enough. *)
Definition fuel_for (s : ustr) : nat := 2 * length s + 2.

(** [json.loads(s)]: [None] stands for [JSONDecodeError].  The fuel is
    never exhausted (lemma [loads_fuel] below).  The interpreter's limits on
    recursion depth and on the length of an integer text are not
    modelled. *)
Definition loads (s : ustr) : option pyval :=
  if U.startswith [65279%N] s then None
  else
    match parse_value (fuel_for s) (skip_ws s) with
    | POk v rest =>
        match skip_ws rest with
        | [] => Some v
        | _ :: _ => None
        end
    | PErr => None
    | PFuel => None
    end.

End Json.

(** *** [float(x)] *)

Definition is_infinite (f : Float.float) : bool :=
  match f with S754_infinity _ => true | _ => false end.

(** [float] of an [int]: the nearest binary64 value, [OverflowError] when
    that is out of range. *)
Definition float_of_int (z : Z) : outcome Float.float :=
  let f := match z with
           | Z0 => Float.zero
           | Zpos p => Float.of_ratio false p 1
           | Zneg p => Float.of_ratio true p 1
           end in
  if is_infinite f then Raised OverflowError else Returned f.

(** A run of digits in which single underscores may separate digits: the
    digits and the rest. *)
Fixpoint udigits (s : ustr) : ustr * ustr :=
  match s with
  | c :: s' =>
      if U.isdigit c then
        match s' with
        | u :: s'' =>
            if (u =? 95)%N then
              match s'' with
              | d :: _ =>
                  if U.isdigit d
                  then (c :: fst (udigits s''), snd (udigits s''))
                  else ([c], s')
              | [] => ([c], s')
              end
            else (c :: fst (udigits s'), snd (udigits s'))
        | [] => ([c], [])
        end
      else ([], s)
  | [] => ([], [])
  end.

(** [float] of a [str]: white space around, a sign, then [inf],
    [infinity] or [nan] in any case, or a decimal number with an optional
    exponent; [ValueError] otherwise.  Only ASCII digits are read: the
    decimal digits of other scripts are taken as invalid. *)
Definition float_of_str (s : ustr) : outcome Float.float :=
  let '(neg, t) := Json.scan_exp_sign (U.strip s) in
  let low := U.lower <$> t in
  if U.eqb low (codes "inf") || U.eqb low (codes "infinity")
  then Returned (S754_infinity neg)
  else if U.eqb low (codes "nan") then Returned S754_nan
  else
    let '(ip, r1) := udigits t in
    let '(fp, r2) :=
      match r1 with
      | dot :: r => if (dot =? 46)%N then udigits r else ([], r1)
      | [] => ([], r1)
      end in
    match ip ++ fp with
    | [] => Raised ValueError
    | mantissa =>
        let scaled (e : Z) :=
          Float.of_decimal neg (U.nat_value mantissa) (e - Z.of_nat (length fp)) in
        match r2 with
        | [] => Returned (scaled 0%Z)
        | e :: r =>
            if ((e =? 101) || (e =? 69))%N then
              let '(eneg, r') := Json.scan_exp_sign r in
              match udigits r' with
              | (_ :: _ as ds, []) =>
                  Returned (scaled (if eneg then - U.nat_value ds
                                    else U.nat_value ds)%Z)
              | _ => Raised ValueError
              end
            else Raised ValueError
        end
    end.

Definition py_float (v : pyval) : outcome Float.float :=
  match v with
  | PyFloat f => Returned f
  | PyInt z => float_of_int z
  | PyBool b => Returned (if b then Float.one else Float.zero)
  | PyStr s => float_of_str s
  | PyNone | PyList _ | PyDict _ => Raised TypeError
  end.

(** ** ContextBuilder and ResponseInterpreter: [phase1/llm_analyzer.py] *)

(** The fields that [_parse_llm_response] takes from the reply hold
    whatever value the reply gives them. *)
Record FailureAnalysis := mkFailureAnalysis {
  workflow_run_id : Z;
  summary : pyval;
  failed_jobs : list string;
  failed_steps : list string;
  error_contexts : list ErrorContext;
  likely_cause : pyval;
  suggested_actions : pyval;
  confidence : Float.float
}.

(** [l[1:-1]] *)
Definition inner {A} (l : list A) : list A := removelast (tail l).

(** The text handed to [json.loads]: the stripped reply, without the first
    and last line when it starts with a code fence. *)
Definition cleaned (llm_response : ustr) : ustr :=
  let cleaned := U.strip llm_response in
  if U.startswith (codes "```") cleaned
  then U.join [10%N] (inner (U.split 10%N cleaned))
  else cleaned.

(** The result of the [except] branch. *)
Definition fallback (run_id : Z) (failed_jobs failed_steps : list string)
    (errors : list ErrorContext) (llm_response : ustr) : FailureAnalysis :=
  mkFailureAnalysis run_id (PyStr (codes "Failed to parse LLM response"))
    failed_jobs failed_steps errors
    (PyStr (take 500 llm_response))
    (PyList [PyStr (codes "Review logs manually")])
    Float.zero.

(** [LLMAnalyzer._parse_llm_response].  The [try] block raises
    [JSONDecodeError] in [json.loads], which the [except] clause catches;
    [AttributeError] in [data.get] when the reply is not an object, and
    [TypeError], [ValueError] or [OverflowError] in [float], which it does
    not.  [KeyError], which it also names, is raised nowhere. *)
Definition _parse_llm_response (run_id : Z) (failed_jobs failed_steps : list string)
    (errors : list ErrorContext) (llm_response : ustr)
  : outcome FailureAnalysis :=
  match Json.loads (cleaned llm_response) with
  | None => Returned (fallback run_id failed_jobs failed_steps errors llm_response)
  | Some (PyDict data) =>
      match py_float (dict_get data (codes "confidence") (PyFloat Float.half)) with
      | Returned c =>
          Returned
            (mkFailureAnalysis run_id
               (dict_get data (codes "summary")
                         (PyStr (codes "Analysis unavailable")))
               failed_jobs failed_steps errors
               (dict_get data (codes "likely_cause") (PyStr (codes "Unknown")))
               (dict_get data (codes "suggested_actions") (PyList []))
               c)
      | Raised e => Raised e
      end
  | Some _ => Raised AttributeError
  end.

(** [str(n)] for an [int] *)
Definition str_of_int (z : Z) : string := NilZero.string_of_int (Z.to_int z).

(** [f"{x}"] for a text that may be [None] *)
Definition str_of_optional (o : option string) : string :=
  match o with Some s => s | None => "None" end.

(** [enumerate(l, 1)] *)
Definition enumerate_from_1 {A} (l : list A) : list (nat * A) :=
  combine (seq 1 (length l)) l.

(** The body of [for i, error in enumerate(errors[:5], 1)]. *)
Definition append_error (context_parts : list string) (ie : nat * ErrorContext)
  : list string :=
  let '(i, error) := ie in
  let parts :=
    context_parts
      ++ [ ("### Error " ++ str_of_int (Z.of_nat i))%string;
           ("Type: " ++ error_type error)%string;
           ("Message: " ++ error_message error)%string] in
  let parts :=
    match file_path error with
    | Some path =>
        if Text.truthy path then
          let location :=
            match line_number error with
            | Some n =>
                if (n =? 0)%Z then path
                else (path ++ ":" ++ str_of_int n)%string
            | None => path
            end in
          parts ++ [("Location: " ++ location)%string]
        else parts
    | None => parts
    end in
  let parts :=
    match stack_trace error with
    | [] => parts
    | _ :: _ =>
        fold_left (fun parts line => parts ++ [("  " ++ line)%string])
                  (take 10 (stack_trace error))
                  (parts ++ ["Stack trace:"])
    end in
  parts ++ [""].

(** The list [context_parts] at the end of [_build_analysis_context]. *)
Definition context_parts (workflow_run : WorkflowRun)
    (failed_jobs failed_steps : list string) (errors : list ErrorContext)
  : list string :=
  let parts :=
    [ "# CI Failure Analysis Request";
      "";
      "## Workflow Information";
      ("- Repository: " ++ repository workflow_run)%string;
      ("- Workflow: " ++ run_name workflow_run)%string;
      ("- Branch: " ++ head_branch workflow_run)%string;
      ("- Commit: " ++ Text.prefix_chars 8 (head_sha workflow_run))%string;
      ("- Status: " ++ str_of_optional (run_conclusion workflow_run))%string;
      "";
      "## Failed Jobs" ] in
  let parts :=
    fold_left (fun parts job => parts ++ [("- " ++ job)%string])
              failed_jobs parts in
  let parts := parts ++ [""; "## Failed Steps"] in
  let parts :=
    fold_left (fun parts step => parts ++ [("- " ++ step)%string])
              failed_steps parts in
  let parts := parts ++ [""; "## Error Details"] in
  fold_left append_error (enumerate_from_1 (take 5 errors)) parts.

(** [LLMAnalyzer._build_analysis_context] *)
Definition _build_analysis_context (workflow_run : WorkflowRun)
    (failed_jobs failed_steps : list string) (errors : list ErrorContext)
  : string :=
  Text.join (String Text.LF "")
            (context_parts workflow_run failed_jobs failed_steps errors).

(** The parts that open the detail of an error. *)
Definition is_error_heading (part : string) : bool :=
  Text.startswith "### Error " part.

(** A reply written with ['] for the double quote. *)
Definition reply_text (s : string) : ustr :=
  (fun c => if (c =? 39)%N then 34%N else c) <$> codes s.

(** The three lists that [analyze_workflow_failure] fills. *)
Record collected := mkCollected {
  all_errors : list ErrorContext;
  failed_job_names : list string;
  failed_step_names : list string
}.

(** The body of [for step in job.steps]. *)
Definition collect_step (job : JobRun) (acc : collected) (step : StepRun)
  : collected :=
  if is_failure (step_conclusion step)
  then mkCollected
         (all_errors acc ++ parse_step_logs step)
         (failed_job_names acc)
         (failed_step_names acc
            ++ [(job_name job ++ "/" ++ step_name step)%string])
  else acc.

(** The body of [for job in workflow_run.jobs]. *)
Definition collect_job (acc : collected) (job : JobRun) : collected :=
  if is_failure (job_conclusion job)
  then fold_left (collect_step job) (job_steps job)
         (mkCollected (all_errors acc)
                      (failed_job_names acc ++ [job_name job])
                      (failed_step_names acc))
  else acc.

Definition collect (workflow_run : WorkflowRun) : collected :=
  fold_left collect_job (jobs workflow_run) (mkCollected [] [] []).

(** [LLMAnalyzer.analyze_workflow_failure].  [query_llm] is the call to the
    reasoning service: it takes the context document and gives the text of
    the reply. *)
Definition analyze_workflow_failure (query_llm : string -> ustr)
    (workflow_run : WorkflowRun) : outcome FailureAnalysis :=
  let c := collect workflow_run in
  let context :=
    _build_analysis_context workflow_run (failed_job_names c)
                            (failed_step_names c) (all_errors c) in
  let llm_response := query_llm context in
  _parse_llm_response (run_id workflow_run) (failed_job_names c)
                      (failed_step_names c) (all_errors c) llm_response.


(** *** Sample inputs *)

Definition demo_steps : list StepRun :=
  [ mkStepRun "Set up job" "completed" (Some "success") 1 None None None;
    mkStepRun "Run tests" "completed" (Some "failure") 2 None None None ].

(** A job log: a line before the first marker, two markers for the two
    steps and a third marker after the step list is exhausted. *)
Definition demo_log : string :=
  Text.join (String Text.LF "")
    [ "2024-01-01 runner start";
      "##[group]Set up job";
      "ready";
      "##[group]Run tests";
      "ValueError: boom";
      "  src/app.py:12";
      "  lib/util.py:7";
      "##[group]Post";
      "done" ].

Definition demo_lines : list string :=
  ["ValueError: boom"; "  src/app.py:12"; "  lib/util.py:7"; ""; "  late.py:1"].

Definition demo_error (n : Z) : ErrorContext :=
  mkErrorContext "error: failed" "build_error" (Some n) (Some "main.c") [] [].

Definition demo_errors : list ErrorContext :=
  demo_error <$> [1; 2; 3; 4; 5; 6; 7]%Z.

Definition demo_run : WorkflowRun :=
  mkWorkflowRun 42 "CI" (Some "failure") "main" "0123456789abcdef" "org/repo" [].

Definition demo_reply : ustr :=
  reply_text "{'summary': 'S', 'likely_cause': 'C', 'suggested_actions': ['A'], 'confidence': 0.9}".

Definition fenced (reply : ustr) : ustr :=
  codes "```json" ++ [10%N] ++ reply ++ [10%N] ++ codes "```".

(** ** [LogParser.extract_failure_summary] ([phase1/log_parser.py]) *)

(** [summary_parts[2] += suffix].  Reading index 2 of a list with fewer
    than three parts raises [IndexError]: [None]. *)
Definition extend_part_2 (summary_parts : list string) (suffix : string)
  : option (list string) :=
  match summary_parts !! 2 with
  | Some part => Some (<[2 := (part ++ suffix)%string]> summary_parts)
  | None => None
  end.

(** The function after [errors = self.parse_step_logs(step)]; [None] is
    the [IndexError] of [summary_parts[2]]. *)
Definition failure_summary (name : string) (errors : list ErrorContext)
  : option string :=
  match errors with
  | [] =>
      Some ("Step '" ++ name ++ "' failed with no clear error message")%string
  | error :: _ =>
      let summary_parts := [("Step '" ++ name ++ "' failed")%string] in
      let summary_parts :=
        if Text.truthy (error_type error)
        then summary_parts ++ [("(" ++ error_type error ++ ")")%string]
        else summary_parts in
      let located :=
        match file_path error with
        | Some path =>
            if Text.truthy path then
              let summary_parts := summary_parts ++ [("in " ++ path)%string] in
              match line_number error with
              | Some n =>
                  if (n =? 0)%Z then Some summary_parts
                  else extend_part_2 summary_parts (":" ++ str_of_int n)
              | None => Some summary_parts
              end
            else Some summary_parts
        | None => Some summary_parts
        end in
      match located with
      | Some summary_parts =>
          Some (Text.join " "
                  (summary_parts
                     ++ [("- " ++ Text.prefix_chars 100 (error_message error))
                           %string]))
      | None => None
      end
  end.

Definition extract_failure_summary (step : StepRun) : option string :=
  failure_summary (step_name step) (parse_step_logs step).

(** The location that a summary shows for a record of the extractor. *)
Definition location_part (error : ErrorContext) : list string :=
  match file_path error, line_number error with
  | Some path, Some n =>
      [("in " ++ path
          ++ (if (n =? 0)%Z then "" else ":" ++ str_of_int n))%string]
  | _, _ => []
  end.

(** A failed step whose log has one line with an error. *)
Definition demo_failed_step : StepRun :=
  mkStepRun "Build" "completed" (Some "failure") 1 None None
            (Some "make: *** Error: failed (1)").

Definition demo_record : ErrorContext :=
  mkErrorContext "Error: failed (1)" "build_error" None None []
                 ["make: *** Error: failed (1)"].

(** A reply in a code fence with a language tag: the opening fence and the
    tag on the first line, the closing fence on the last. *)
Definition fenced_with (tag reply : ustr) : ustr :=
  codes "```" ++ tag ++ [10%N] ++ reply ++ [10%N] ++ codes "```".

(** [conclusion == "failure"] for a job and for a step. *)
Definition job_failed (job : JobRun) : bool := is_failure (job_conclusion job).
Definition step_failed (step : StepRun) : bool :=
  is_failure (step_conclusion step).

(** [f"{job.name}/{step.name}"] *)
Definition step_label (job : JobRun) (step : StepRun) : string :=
  (job_name job ++ "/" ++ step_name step)%string.

(** A run with a job that failed in its second step and a job that passed
    but has a step marked as failed. *)
Definition demo_failed_run : WorkflowRun :=
  mkWorkflowRun 42 "CI" (Some "failure") "main" "0123456789abcdef" "org/repo"
    [ mkJobRun "build" "completed" (Some "failure")
        [ mkStepRun "Set up job" "completed" (Some "success") 1 None None None;
          demo_failed_step ];
      mkJobRun "lint" "completed" (Some "success")
        [ mkStepRun "Run lint" "completed" (Some "failure") 1 None None
            (Some "error: unused variable") ] ].

(** ** The colour of the confidence: [cli._display_analysis] *)

(** [x > y] on [float]: false when either is not a number. *)
Definition float_gt (x y : Float.float) : bool := SFltb y x.

(** ["green" if confidence > 0.7 else "yellow" if confidence > 0.4
     else "red"] *)
Definition confidence_color (confidence : Float.float) : string :=
  if float_gt confidence (Float.of_decimal false 7 (-1)) then "green"
  else if float_gt confidence (Float.of_decimal false 4 (-1)) then "yellow"
  else "red".

(** A reply without the key [confidence]. *)
Definition lacks_confidence (data : list (ustr * pyval)) : Prop :=
  Forall (fun kv => U.eqb (fst kv) (codes "confidence") = false) data.

(** * Properties *)

(** ** Text primitives *)

Lemma split_cons_inv sep s : exists l ls, Text.split sep s = l :: ls.
Proof.
  induction s as [|c s IH]; simpl; [eauto|].
  destruct (Ascii.eqb c sep); [eauto|].
  destruct IH as (l & ls & ->); eauto.
Qed.

Lemma contains_LF_cons c s :
  Text.contains (String Text.LF "") (String c s)
  = Ascii.eqb c Text.LF || Text.contains (String Text.LF "") s.
Proof.
  simpl. destruct (Ascii.eqb c Text.LF); reflexivity.
Qed.

Lemma split_no_LF s : Forall no_LF (Text.split Text.LF s).
Proof.
  induction s as [|c s IH]; simpl.
  - repeat constructor.
  - destruct (Ascii.eqb c Text.LF) eqn:E.
    + constructor; [reflexivity|exact IH].
    + destruct (split_cons_inv Text.LF s) as (l & ls & Hs).
      rewrite Hs in *. inversion IH; subst.
      constructor; [|assumption].
      unfold no_LF. rewrite contains_LF_cons, E. assumption.
Qed.

Lemma split_single l : no_LF l -> Text.split Text.LF l = [l].
Proof.
  unfold no_LF. induction l as [|c l IH]; [reflexivity|].
  rewrite contains_LF_cons. intros [E H]%orb_false_iff.
  simpl. rewrite E, (IH H). reflexivity.
Qed.

Lemma split_app_LF l s :
  no_LF l ->
  Text.split Text.LF (l ++ String Text.LF s)%string = l :: Text.split Text.LF s.
Proof.
  unfold no_LF. induction l as [|c l IH]; [reflexivity|].
  rewrite contains_LF_cons. intros [E H]%orb_false_iff.
  simpl. rewrite E, (IH H). reflexivity.
Qed.

(** Splitting undoes joining, for a non-empty list of lines. *)
Lemma split_join l ls :
  Forall no_LF (l :: ls) ->
  Text.split Text.LF (Text.join (String Text.LF "") (l :: ls)) = l :: ls.
Proof.
  revert l. induction ls as [|l' ls IH]; intros l H.
  - apply split_single. by inversion H.
  - inversion H; subst.
    change (Text.join (String Text.LF "") (l :: l' :: ls))
      with (l ++ String Text.LF (Text.join (String Text.LF "") (l' :: ls)))%string.
    rewrite split_app_LF by assumption. by rewrite IH.
Qed.

Lemma join_nonempty sep l ls :
  l <> "" -> Text.join sep (l :: ls) <> "".
Proof. destruct ls, l; simpl; congruence. Qed.

Lemma contains_nonempty needle s :
  needle <> "" -> Text.contains needle s = true -> s <> "".
Proof. intros Hn H ->. destruct needle; [congruence|discriminate]. Qed.

Lemma marker_nonempty l : is_marker l = true -> l <> "".
Proof. apply contains_nonempty. discriminate. Qed.

(** ** LogSegmenter *)

Lemma contents_alter t i sts :
  contents (alter (set_log_content t) i sts) = <[i := Some t]> (contents sts).
Proof.
  revert i. induction sts as [|s sts IH]; intros [|i]; simpl; try reflexivity.
  f_equal. apply IH.
Qed.

Lemma save_buffer_length st : length (save_buffer st) = length (steps st).
Proof.
  unfold save_buffer. destruct (current_log_buffer st); [reflexivity|].
  destruct (0 <? _)%nat; [apply length_alter|reflexivity].
Qed.

(** The loop computes the reference segmentation. *)
Lemma attach_loop lines : forall st,
  current_step_idx st <= length (steps st) ->
  contents (save_buffer (fold_left attach_line lines st))
  = assign (current_step_idx st)
      (snd (cut (length (steps st) - current_step_idx st) lines))
      (contents (save_buffer
         (mkSeg (current_step_idx st)
            (current_log_buffer st
               ++ fst (cut (length (steps st) - current_step_idx st) lines))
            (steps st)))).
Proof.
  induction lines as [|l ls IH]; intros [idx buf sts] Hle; simpl in *.
  - by rewrite app_nil_r.
  - unfold attach_line; simpl.
    destruct (is_marker l) eqn:Hm; simpl.
    + destruct (Nat.ltb_spec idx (length sts)) as [Hlt|Hge].
      * rewrite (proj2 (Nat.ltb_lt 0 (length sts - idx))) by lia. simpl.
        rewrite IH by (simpl; rewrite save_buffer_length; simpl; lia).
        simpl. rewrite save_buffer_length. simpl.
        replace (length sts - (idx + 1)) with (length sts - idx - 1) by lia.
        rewrite app_nil_r. replace (idx + 1) with (S idx) by lia.
        f_equal. unfold save_buffer at 1. simpl.
        replace (idx - 0) with idx by lia. apply contents_alter.
      * rewrite (proj2 (Nat.ltb_ge 0 (length sts - idx))) by lia. simpl.
        rewrite IH by (simpl; lia). simpl. by rewrite <- app_assoc.
    + rewrite IH by (simpl; lia). simpl. by rewrite <- app_assoc.
Qed.

Lemma attach_contents sts logs :
  contents (_attach_logs_to_steps sts logs)
  = assign 0 (snd (cut (length sts) (Text.split Text.LF logs))) (contents sts).
Proof.
  unfold _attach_logs_to_steps. rewrite attach_loop by (simpl; lia). simpl.
  rewrite Nat.sub_0_r. f_equal. unfold save_buffer. simpl.
  by destruct (fst _).
Qed.

Lemma count_markers_cons l ls :
  count_markers (l :: ls)
  = (if is_marker l then 1 else 0) + count_markers ls.
Proof. unfold count_markers. simpl. by destruct (is_marker l). Qed.

Lemma count_markers_0 ls : count_markers ls = 0 <-> Forall plain ls.
Proof.
  induction ls as [|l ls IH]; [by split; [constructor|]|].
  rewrite count_markers_cons, Forall_cons. unfold plain at 1.
  destruct (is_marker l); simpl; [|tauto].
  split; [discriminate|]. by intros [? _].
Qed.

Lemma cut_length n ls :
  length (snd (cut n ls)) = Nat.min n (count_markers ls).
Proof.
  revert n. induction ls as [|l ls IH]; intros n; simpl;
    [unfold count_markers; simpl; lia|].
  rewrite count_markers_cons.
  destruct (is_marker l); simpl; [|apply IH].
  destruct (Nat.ltb_spec 0 n); simpl; rewrite IH; lia.
Qed.

Lemma cut_concat n ls : fst (cut n ls) ++ concat (snd (cut n ls)) = ls.
Proof.
  revert n. induction ls as [|l ls IH]; intros n; simpl; [done|].
  destruct (is_marker l && (0 <? n)%nat); simpl; by rewrite IH.
Qed.

Lemma cut_fst_plain n ls : 0 < n -> Forall plain (fst (cut n ls)).
Proof.
  intros Hn. induction ls as [|l ls IH]; simpl; [constructor|].
  rewrite (proj2 (Nat.ltb_lt 0 n)) by lia.
  destruct (is_marker l) eqn:Hm; simpl; by constructor.
Qed.

Lemma cut_from_first_marker n ls :
  0 < n -> concat (snd (cut n ls)) = from_first_marker ls.
Proof.
  intros Hn. induction ls as [|l ls IH]; simpl; [done|].
  rewrite (proj2 (Nat.ltb_lt 0 n)) by lia.
  destruct (is_marker l); simpl; [|done]. by rewrite cut_concat.
Qed.

Lemma cut_blocks ls : forall n k b,
  snd (cut n ls) !! k = Some b ->
  exists m rest, b = m :: rest /\ is_marker m = true
                 /\ (S k < n -> Forall plain rest).
Proof.
  induction ls as [|l ls IH]; intros n k b; simpl; [done|].
  destruct (is_marker l) eqn:Hm; simpl; [|apply IH].
  destruct (Nat.ltb_spec 0 n); simpl; [|apply IH].
  destruct k as [|k]; simpl.
  - intros [= <-]. exists l, (fst (cut (n - 1) ls)).
    repeat split; [done|]. intros. apply cut_fst_plain. lia.
  - intros Hb. destruct (IH _ _ _ Hb) as (m & rest & -> & ? & Hr).
    exists m, rest. repeat split; [done|]. intros. apply Hr. lia.
Qed.

Lemma assign_take_drop bs : forall i c,
  i + length bs <= length c ->
  assign i bs c
  = take i c ++ ((fun b => Some (Text.join (String Text.LF "") b)) <$> bs)
      ++ drop (i + length bs) c.
Proof.
  induction bs as [|b bs IH]; intros i c Hle; simpl in *.
  - by rewrite Nat.add_0_r, take_drop.
  - rewrite IH by (rewrite length_insert; lia).
    rewrite (take_S_r _ _ (Some (Text.join (String Text.LF "") b)))
      by (apply list_lookup_insert_eq; lia).
    rewrite take_insert_ge by lia. rewrite drop_insert_lt by lia.
    replace (i + S (length bs)) with (S i + length bs) by lia.
    by rewrite <- app_assoc.
Qed.

Lemma segments_contents sts : segments sts = omap id (contents sts).
Proof.
  unfold segments, contents. induction sts as [|s sts IH]; [done|].
  cbn. destruct (log_content s); cbn; [f_equal|]; exact IH.
Qed.

Lemma omap_id_Some {A B} (f : A -> B) (l : list A) :
  omap id ((fun x => Some (f x)) <$> l) = f <$> l.
Proof. induction l; cbn; by f_equal. Qed.

Lemma omap_id_None {A} (l : list (option A)) :
  Forall (fun o => o = None) l -> omap id l = [].
Proof. induction 1 as [|? ? ->]; cbn; done. Qed.

(** On steps without logs, the attached contents are the blocks of the
    reference segmentation, joined. *)
Lemma attach_segments sts logs :
  fresh sts ->
  segments (_attach_logs_to_steps sts logs)
  = Text.join (String Text.LF "")
      <$> snd (cut (length sts) (Text.split Text.LF logs)).
Proof.
  intros Hf. rewrite segments_contents, attach_contents.
  assert (Hc : Forall (fun o => o = None) (contents sts)).
  { unfold contents. induction Hf; simpl; by constructor. }
  rewrite assign_take_drop
    by (unfold contents; rewrite cut_length, length_fmap; lia).
  rewrite take_0. simpl. rewrite omap_app, omap_id_Some.
  rewrite omap_id_None, app_nil_r; [done|]. by apply Forall_drop.
Qed.

Lemma cut_no_LF n ls :
  Forall no_LF ls -> Forall (Forall no_LF) (snd (cut n ls)).
Proof.
  intros H. rewrite <- (cut_concat n ls) in H.
  apply Forall_app in H as [_ H]. by apply Forall_concat.
Qed.

Lemma split_join_blocks (bs : list (list string)) :
  Forall (Forall no_LF) bs -> Forall (fun b => b <> []) bs ->
  Text.split Text.LF <$> (Text.join (String Text.LF "") <$> bs) = bs.
Proof.
  induction 1 as [|b bs Hb _ IH]; intros Hne; [done|].
  inversion Hne; subst. rewrite !fmap_cons, IH by done. f_equal.
  destruct b; [done|]. by apply split_join.
Qed.

Lemma cut_blocks_nonempty n ls : Forall (fun b => b <> []) (snd (cut n ls)).
Proof.
  apply Forall_lookup. intros k b Hb.
  by destruct (cut_blocks _ _ _ _ Hb) as (m & rest & -> & _).
Qed.

Lemma plain_fold ls : forall st,
  Forall plain ls ->
  fold_left attach_line ls st
  = mkSeg (current_step_idx st) (current_log_buffer st ++ ls) (steps st).
Proof.
  induction ls as [|l ls IH]; intros [idx buf sts] H; simpl.
  - by rewrite app_nil_r.
  - inversion H as [|? ? Hl Hls]; subst. rewrite IH by done.
    unfold attach_line. rewrite Hl. simpl. by rewrite <- app_assoc.
Qed.

Lemma from_first_marker_count ls :
  count_markers (from_first_marker ls) = count_markers ls.
Proof.
  induction ls as [|l ls IH]; simpl; [done|].
  destruct (is_marker l) eqn:Hm; [done|].
  by rewrite IH, count_markers_cons, Hm.
Qed.

(** C5: a log without boundary markers attaches nothing to any step; a log
    with N markers yields at most N segments, none empty, which taken in
    step order are the log from its first marker on: the order of the log is
    kept and the text before the first marker is dropped. *)
Theorem segmenter_segments (job_steps : list StepRun) (logs : string) :
  (count_markers (Text.split Text.LF logs) = 0 ->
     _attach_logs_to_steps job_steps logs = job_steps) /\
  (fresh job_steps ->
     length (segments (_attach_logs_to_steps job_steps logs))
       <= count_markers (Text.split Text.LF logs)
     /\ Forall (fun seg => seg <> "")
          (segments (_attach_logs_to_steps job_steps logs))
     /\ (job_steps <> [] ->
         concat (Text.split Text.LF
                   <$> segments (_attach_logs_to_steps job_steps logs))
         = from_first_marker (Text.split Text.LF logs))).
Proof.
  split.
  - intros H%count_markers_0. unfold _attach_logs_to_steps.
    rewrite plain_fold by done. unfold save_buffer. simpl.
    by destruct (Text.split _ _).
  - intros Hf. rewrite attach_segments by done.
    split; [rewrite length_fmap, cut_length; lia|]. split.
    + apply Forall_fmap, Forall_lookup. intros k b Hb. simpl.
      destruct (cut_blocks _ _ _ _ Hb) as (m & rest & -> & Hm & _).
      by apply join_nonempty, marker_nonempty.
    + intros Hne. rewrite split_join_blocks.
      * apply cut_from_first_marker. destruct job_steps; simpl; [done|lia].
      * apply cut_no_LF, split_no_LF.
      * apply cut_blocks_nonempty.
Qed.

(** C10: the segment of every step opens with the marker line that starts
    it, and no later marker is in it while steps remain; once the step list
    is exhausted a marker line is appended to the buffer like any other
    line, so that no marker of the log is lost from the segments. *)
Theorem marker_opens_segment (job_steps : list StepRun) (logs : string) :
  fresh job_steps ->
  length (segments (_attach_logs_to_steps job_steps logs))
    = Nat.min (length job_steps) (count_markers (Text.split Text.LF logs))
  /\ (forall k seg,
        segments (_attach_logs_to_steps job_steps logs) !! k = Some seg ->
        exists m rest,
          Text.split Text.LF seg = m :: rest /\ is_marker m = true
          /\ (S k < length job_steps -> Forall plain rest))
  /\ (job_steps <> [] ->
      count_markers
        (concat (Text.split Text.LF
                   <$> segments (_attach_logs_to_steps job_steps logs)))
      = count_markers (Text.split Text.LF logs))
  /\ (forall st line,
        length (steps st) <= current_step_idx st ->
        attach_line st line
        = mkSeg (current_step_idx st) (current_log_buffer st ++ [line])
                (steps st)).
Proof.
  intros Hf.
  rewrite attach_segments by done. repeat split.
  - by rewrite length_fmap, cut_length.
  - intros k seg [b [-> Hb]]%list_lookup_fmap_Some.
    destruct (cut_blocks _ _ _ _ Hb) as (m & rest & -> & Hm & Hr).
    exists m, rest. repeat split; [|done..].
    apply split_join.
    pose proof (cut_no_LF (length job_steps) _ (split_no_LF logs)) as Hn.
    by apply (proj1 (Forall_lookup _ _) Hn k).
  - intros Hne. rewrite split_join_blocks.
    + rewrite cut_from_first_marker; [apply from_first_marker_count|].
      destruct job_steps; simpl; [done|lia].
    + apply cut_no_LF, split_no_LF.
    + apply cut_blocks_nonempty.
  - intros st line Hle. unfold attach_line.
    rewrite (proj2 (Nat.ltb_ge _ _) Hle), andb_false_r. done.
Qed.

(** ** More on the segmenter: what it leaves alone *)

Lemma clear_log_alter t (i : nat) (sts : list StepRun) :
  clear_log <$> alter (set_log_content t) i sts = clear_log <$> sts.
Proof.
  revert i. induction sts as [|s sts IH]; intros [|i]; [done..| |].
  - done.
  - cbn [alter list_alter fmap list_fmap]. f_equal. apply IH.
Qed.

Lemma clear_log_save_buffer st :
  clear_log <$> save_buffer st = clear_log <$> steps st.
Proof.
  unfold save_buffer. destruct (current_log_buffer st); [done|].
  destruct (0 <? _)%nat; [|done]. apply clear_log_alter.
Qed.

Lemma clear_log_fold lines : forall st,
  clear_log <$> steps (fold_left attach_line lines st) = clear_log <$> steps st.
Proof.
  induction lines as [|l lines IH]; intros st; simpl; [done|].
  rewrite IH. unfold attach_line.
  destruct (is_marker l && _); simpl; [|done]. apply clear_log_save_buffer.
Qed.

Lemma step_ext (a b : StepRun) :
  clear_log a = clear_log b -> log_content a = log_content b -> a = b.
Proof. destruct a, b. unfold clear_log. simpl. by intros [= -> -> -> -> -> ->] ->. Qed.

Lemma cut_fst_plain_le ls : forall n,
  count_markers ls <= n -> Forall plain (fst (cut n ls)).
Proof.
  intros [|n] H; [|apply cut_fst_plain; lia].
  assert (count_markers ls = 0) as H0%count_markers_0 by lia.
  clear H. induction ls as [|l ls IH]; simpl; [done|].
  rewrite andb_false_r. simpl. inversion H0; subst. constructor; auto.
Qed.

Lemma cut_one_marker ls : forall n,
  count_markers ls <= n ->
  Forall (fun b => count_markers b = 1) (snd (cut n ls)).
Proof.
  induction ls as [|l ls IH]; intros n H; simpl; [done|].
  rewrite count_markers_cons in H.
  destruct (is_marker l) eqn:M; simpl.
  - destruct n as [|n]; [lia|]. simpl. rewrite Nat.sub_0_r. constructor.
    + rewrite count_markers_cons, M.
      assert (Forall plain (fst (cut n ls))) as P by (apply cut_fst_plain_le; lia).
      apply count_markers_0 in P. lia.
    + apply IH. lia.
  - apply IH. lia.
Qed.

Lemma attach_frame (job_steps : list StepRun) (logs : string) :
  clear_log <$> _attach_logs_to_steps job_steps logs = clear_log <$> job_steps
  /\ length (_attach_logs_to_steps job_steps logs) = length job_steps.
Proof.
  assert (clear_log <$> _attach_logs_to_steps job_steps logs
          = clear_log <$> job_steps) as H.
  { unfold _attach_logs_to_steps.
    by rewrite clear_log_save_buffer, clear_log_fold. }
  split; [done|].
  apply (f_equal length) in H. by rewrite !length_fmap in H.
Qed.

(** X1: the segmenter changes nothing but log contents: the job has the
    same steps, in the same order, with the same name, status, conclusion,
    number and times, whatever the log and whatever the steps held
    before. *)
Theorem attach_changes_logs_only (job_steps : list StepRun) (logs : string) :
  clear_log <$> _attach_logs_to_steps job_steps logs = clear_log <$> job_steps
  /\ length (_attach_logs_to_steps job_steps logs) = length job_steps.
Proof. apply attach_frame. Qed.

(** X2: the log content of a step is overwritten, not merged: each of the
    first min(steps, markers) steps gets a new non-empty content even when
    it had one, and every step from index [count_markers] on is returned as
    it was given, with the content it had. *)
Theorem attach_overwrites_prefix (job_steps : list StepRun) (logs : string)
    (k : nat) :
  (count_markers (Text.split Text.LF logs) <= k ->
   _attach_logs_to_steps job_steps logs !! k = job_steps !! k)
  /\ (k < Nat.min (length job_steps) (count_markers (Text.split Text.LF logs)) ->
      exists s seg,
        _attach_logs_to_steps job_steps logs !! k = Some s
        /\ log_content s = Some seg /\ seg <> ""
        /\ exists m rest,
             Text.split Text.LF seg = m :: rest /\ is_marker m = true).
Proof.
  pose proof (attach_contents job_steps logs) as C.
  pose proof (cut_length (length job_steps) (Text.split Text.LF logs)) as L.
  rewrite assign_take_drop in C
    by (unfold contents; rewrite length_fmap; lia).
  simpl in C.
  destruct (attach_frame job_steps logs) as [F Hlen].
  split.
  - intros Hk.
    destruct (job_steps !! k) as [s|] eqn:E.
    + assert (k < length job_steps) as Hlt by (by eapply lookup_lt_Some).
      destruct (lookup_lt_is_Some_2 (_attach_logs_to_steps job_steps logs) k)
        as [s' E']; [lia|].
      rewrite E'. f_equal. apply step_ext.
      * apply (f_equal (fun l => l !! k)) in F.
        rewrite !list_lookup_fmap, E, E' in F. simpl in F. congruence.
      * apply (f_equal (fun l => l !! k)) in C. unfold contents in C.
        rewrite list_lookup_fmap, E' in C. simpl in C.
        rewrite lookup_app_r in C by (rewrite length_fmap; lia).
        rewrite length_fmap, lookup_drop in C.
        replace (_ + _) with k in C by lia.
        rewrite list_lookup_fmap, E in C. simpl in C. congruence.
    + apply lookup_ge_None in E. apply lookup_ge_None. lia.
  - intros Hk.
    destruct (lookup_lt_is_Some_2 (_attach_logs_to_steps job_steps logs) k)
      as [s E]; [lia|].
    destruct (lookup_lt_is_Some_2
                (snd (cut (length job_steps) (Text.split Text.LF logs))) k)
      as [b Eb]; [lia|].
    apply (f_equal (fun l => l !! k)) in C. unfold contents in C.
    rewrite list_lookup_fmap, E in C. simpl in C.
    rewrite lookup_app_l in C by (rewrite length_fmap; lia).
    rewrite list_lookup_fmap, Eb in C. simpl in C. injection C as C.
    destruct (cut_blocks _ _ _ _ Eb) as (m & rest & -> & M & _).
    exists s, (Text.join (String Text.LF "") (m :: rest)).
    split; [done|]. split; [done|]. split.
    + apply join_nonempty. by apply marker_nonempty.
    + exists m, rest. split; [|done]. apply split_join.
      pose proof (cut_no_LF (length job_steps) _ (split_no_LF logs)) as N.
      rewrite Forall_forall in N. apply N.
      by eapply list_elem_of_lookup_2.
Qed.

(** X3: when the log has no more markers than the job has steps, every
    segment holds exactly one marker line, its first. *)
Theorem one_marker_per_segment (job_steps : list StepRun) (logs : string) :
  fresh job_steps ->
  count_markers (Text.split Text.LF logs) <= length job_steps ->
  Forall (fun seg => count_markers (Text.split Text.LF seg) = 1)
         (segments (_attach_logs_to_steps job_steps logs)).
Proof.
  intros Hf Hle. rewrite attach_segments by done.
  pose proof (cut_one_marker _ _ Hle) as H1.
  pose proof (cut_no_LF (length job_steps) _ (split_no_LF logs)) as N.
  pose proof (cut_blocks_nonempty (length job_steps) (Text.split Text.LF logs)) as NE.
  induction (snd (cut _ _)) as [|b bs IH]; simpl; [done|].
  inversion H1; inversion N; inversion NE; subst. constructor; [|by apply IH].
  destruct b as [|l b]; [done|]. by rewrite split_join.
Qed.

Lemma one_marker_per_segment_witness :
  Forall (fun seg => count_markers (Text.split Text.LF seg) = 1)
    (segments (_attach_logs_to_steps demo_steps
                 (Text.join (String Text.LF "")
                    ["start"; "##[group]Set up job"; "ready";
                     "##[group]Run tests"; "error: failed"]))).
Proof.
  apply one_marker_per_segment.
  - repeat constructor.
  - vm_compute. lia.
Defined.

Lemma steps_ext (l1 l2 : list StepRun) :
  clear_log <$> l1 = clear_log <$> l2 -> contents l1 = contents l2 -> l1 = l2.
Proof.
  revert l2. induction l1 as [|a l1 IH]; intros [|b l2]; try done.
  unfold contents. rewrite !fmap_cons. intros Hc Hl.
  apply (f_equal head) in Hc as Hc1. apply (f_equal tail) in Hc.
  apply (f_equal head) in Hl as Hl1. apply (f_equal tail) in Hl.
  simpl in *. f_equal; [apply step_ext; congruence|by apply IH].
Qed.

(** X18: attaching the same log a second time changes nothing. *)
Theorem attach_idempotent (job_steps : list StepRun) (logs : string) :
  _attach_logs_to_steps (_attach_logs_to_steps job_steps logs) logs
  = _attach_logs_to_steps job_steps logs.
Proof.
  destruct (attach_frame job_steps logs) as [F L].
  destruct (attach_frame (_attach_logs_to_steps job_steps logs) logs)
    as [F' L'].
  apply steps_ext; [by rewrite F'|].
  pose proof (cut_length (length job_steps) (Text.split Text.LF logs)) as Hc.
  rewrite (attach_contents (_attach_logs_to_steps job_steps logs)), L.
  rewrite (attach_contents job_steps).
  set (bs := snd (cut _ _)) in *.
  assert (length bs <= length (contents job_steps)) as Hle
    by (unfold contents; rewrite length_fmap; lia).
  rewrite (assign_take_drop bs 0 (contents job_steps)) by (simpl; lia).
  rewrite take_0. cbn [app Nat.add].
  rewrite assign_take_drop
    by (rewrite length_app, length_fmap, length_drop; simpl; lia).
  rewrite take_0. cbn [app Nat.add]. f_equal.
  rewrite drop_app_length'; [done|by rewrite length_fmap].
Qed.

(** ** The matcher *)

Section RunFacts.
Context {A : Type}.

Lemma many_inv p s (k : string -> option A) x :
  many p s k = Some x ->
  exists s', k s' = Some x /\ String.length s' < String.length s.
Proof.
  induction s as [|c s IH]; simpl; [done|].
  destruct (p c); [|done].
  destruct (many p s k) eqn:E.
  - intros [= ->]. destruct (IH eq_refl) as (s' & ? & ?). exists s'. split; [done|lia].
  - intros Hk. exists s. split; [done|lia].
Qed.

Lemma consumed_nonempty s s' :
  String.length s' < String.length s -> consumed s s' <> "".
Proof.
  unfold consumed. intros H.
  destruct (String.length s - String.length s') eqn:E; [lia|].
  destruct s; simpl in *; [lia|done].
Qed.

(** Whatever a successful run hands to its continuation is a suffix no
    longer than the subject, shorter when the pattern consumes, and every
    group that the pattern sets has a non-empty value. *)
Lemma run_inv ic r : forall at0 s cs (k : bool -> string -> captures -> option A) x,
  run ic r at0 s cs k = Some x ->
  exists at0' s' cs',
    k at0' s' cs' = Some x
    /\ String.length s' <= String.length s
    /\ (consumes r = true -> String.length s' < String.length s)
    /\ (groups_consume r = true ->
        forall g, filled g cs \/ sets g r = true -> filled g cs').
Proof.
  induction r as [c|c|r1 IH1 r2 IH2|n r1 IH1| |]; intros at0 s cs k x; simpl.
  - destruct s as [|y s]; [done|]. destruct (cls_match ic c y); [|done].
    intros Hk. exists false, s, cs. simpl. repeat split; [done|lia|lia|].
    intros _ g [?|?]; done.
  - intros (s' & Hk & Hlt)%many_inv. exists false, s', cs.
    repeat split; [done|lia|lia|]. intros _ g [?|?]; done.
  - intros H. apply IH1 in H as (a1 & s1 & cs1 & H & Hle1 & Hlt1 & Hg1).
    apply IH2 in H as (a2 & s2 & cs2 & H & Hle2 & Hlt2 & Hg2).
    exists a2, s2, cs2. repeat split; [done|lia| |].
    + intros [C|C]%orb_true_iff; [specialize (Hlt1 C)|specialize (Hlt2 C)]; lia.
    + intros [G1 G2]%andb_true_iff g Hg. apply (Hg2 G2). 
      destruct Hg as [Hg|[Hg|Hg]%orb_true_iff].
      * left. apply (Hg1 G1). by left.
      * left. apply (Hg1 G1). by right.
      * by right.
  - intros H. apply IH1 in H as (a1 & s1 & cs1 & H & Hle1 & Hlt1 & Hg1).
    exists a1, s1, ((n, consumed s s1) :: cs1). repeat split; [done..|].
    intros [C G]%andb_true_iff g Hg. unfold filled. simpl.
    destruct (String.eqb n g) eqn:E.
    + eexists. split; [done|]. by apply consumed_nonempty, Hlt1.
    + apply (Hg1 G). destruct Hg as [?|Hg]; [by left|by right].
  - destruct at0; [|done]. intros Hk. exists true, s, cs.
    repeat split; [done|lia|done|]. intros _ g [?|?]; done.
  - intros Hk. exists at0, s, cs.
    repeat split; [done|lia|done|]. intros _ g [?|?]; done.
Qed.

End RunFacts.

Lemma match_at_groups ic r at0 s m g :
  match_at ic r at0 s = Some m ->
  groups_consume r = true -> sets g r = true ->
  exists v, group m g = Some v /\ v <> "".
Proof.
  unfold match_at. intros (a & s' & cs' & [= <-] & _ & _ & Hg)%run_inv G S.
  apply (Hg G). by right.
Qed.

(** ** ErrorExtractor *)

Lemma frame_fields line fm :
  frame_match line = Some fm ->
  exists file digits,
    group fm "file" = Some file /\ file <> "" /\ group fm "line" = Some digits.
Proof.
  unfold frame_match, STACK_TRACE_PATTERNS, first_match, rematch.
  intros H.
  assert (exists r, In r STACK_TRACE_PATTERNS
                    /\ match_at false r true line = Some fm) as (r & Hr & Hm).
  { unfold STACK_TRACE_PATTERNS.
    repeat match type of H with
    | context [match_at false ?p true line] =>
        destruct (match_at false p true line) eqn:?;
          [injection H as ->; exists p; split; [simpl; tauto|done]|]
    end. done. }
  assert (groups_consume r = true /\ sets "file" r = true
          /\ sets "line" r = true) as (G & F & L).
  { simpl in Hr. destruct Hr as [<-|[<-|[<-|[]]]]; by vm_compute. }
  destruct (match_at_groups _ _ _ _ _ "file" Hm G F) as (file & ? & ?).
  destruct (match_at_groups _ _ _ _ _ "line" Hm G L) as (digits & ? & ?).
  by exists file, digits.
Qed.

Lemma check_frame_first_match patterns line st :
  check_frame patterns line st
  = match first_match patterns line with
    | None => st
    | Some fm =>
        if unset (fs_file_path st)
        then mkFrames (group fm "file") (int_of_digits <$> group fm "line")
                      (fs_stack_trace st ++ [Text.strip line])
        else mkFrames (fs_file_path st) (fs_line_number st)
                      (fs_stack_trace st ++ [Text.strip line])
    end.
Proof.
  induction patterns as [|p ps IH]; simpl; [done|].
  by destruct (rematch false p line).
Qed.

Lemma check_frame_note line st :
  check_frame STACK_TRACE_PATTERNS line st = note_frame line st.
Proof. apply check_frame_first_match. Qed.

(** The index loop examines the lines of [upto_stop], in order. *)
Lemma lookahead_seq lines : forall n a st,
  a + n <= length lines ->
  lookahead (seq a n) lines st
  = fold_left (fun st line => note_frame line st)
              (upto_stop (take n (drop a lines))) st.
Proof.
  induction n as [|n IH]; intros a st Hle; [done|].
  destruct (drop a lines) as [|l ls] eqn:Hd.
  { apply (f_equal length) in Hd. rewrite length_drop in Hd. simpl in Hd. lia. }
  assert (Hn : nth a lines "" = l).
  { rewrite <- (take_drop a lines), Hd, app_nth2; rewrite length_take; [|lia].
    by replace (a - a `min` length lines) with 0 by lia. }
  assert (Hs : drop (S a) lines = ls).
  { by rewrite <- (Nat.add_1_l a), Nat.add_comm, <- drop_drop, Hd. }
  cbn [seq lookahead]. rewrite Hn, check_frame_note, firstn_cons.
  cbn [upto_stop]. destruct (stops l); [done|].
  rewrite IH by lia. by rewrite Hs.
Qed.

Lemma lookahead_window_fold lines i st :
  lookahead (range (i + 1) (Nat.min (i + 20) (length lines))) lines st
  = fold_left (fun st line => note_frame line st) (lookahead_window lines i) st.
Proof.
  unfold range, lookahead_window.
  destruct (Nat.le_gt_cases (length lines) (i + 1)) as [Hshort|Hlong].
  - replace (_ `min` _ - (i + 1)) with 0 by lia.
    rewrite drop_ge by lia. done.
  - rewrite lookahead_seq by lia. do 2 f_equal.
    replace (i + 1) with (S i) by lia.
    destruct (Nat.le_gt_cases (i + 20) (length lines)).
    + f_equal. lia.
    + rewrite !take_ge; [done|rewrite length_drop; lia..].
Qed.

Lemma note_frame_fold ls : forall st,
  fs_stack_trace (fold_left (fun st line => note_frame line st) ls st)
  = fs_stack_trace st ++ (Text.strip <$> List.filter is_frame ls).
Proof.
  induction ls as [|l ls IH]; intros st; simpl; [by rewrite app_nil_r|].
  rewrite IH. unfold note_frame, is_frame.
  destruct (frame_match l); [|done].
  destruct (unset _); simpl; by rewrite <- app_assoc.
Qed.

Lemma note_frame_fold_set ls : forall st,
  unset (fs_file_path st) = false ->
  fs_file_path (fold_left (fun st line => note_frame line st) ls st)
    = fs_file_path st
  /\ fs_line_number (fold_left (fun st line => note_frame line st) ls st)
    = fs_line_number st.
Proof.
  induction ls as [|l ls IH]; intros st Hu; simpl; [done|].
  assert (unset (fs_file_path (note_frame l st)) = false
          /\ fs_file_path (note_frame l st) = fs_file_path st
          /\ fs_line_number (note_frame l st) = fs_line_number st)
    as (Hu' & <- & <-).
  { unfold note_frame. destruct (frame_match l); [|done]. by rewrite Hu. }
  by apply IH.
Qed.

Lemma note_frame_fold_first ls : forall st f rest,
  unset (fs_file_path st) = true ->
  List.filter is_frame ls = f :: rest ->
  exists fm,
    frame_match f = Some fm
    /\ fs_file_path (fold_left (fun st line => note_frame line st) ls st)
       = group fm "file"
    /\ fs_line_number (fold_left (fun st line => note_frame line st) ls st)
       = int_of_digits <$> group fm "line".
Proof.
  induction ls as [|l ls IH]; intros st f rest Hu; [done|].
  cbn [List.filter fold_left]. unfold is_frame at 1.
  destruct (frame_match l) as [fm|] eqn:Hl.
  2:{ intros H. unfold note_frame at 2 4. rewrite Hl. by apply (IH _ _ rest). }
  unfold note_frame at 2 4. rewrite Hl.
  intros [= <- _]. rewrite Hu. exists fm. split; [done|].
  destruct (frame_fields _ _ Hl) as (file & digits & Hf & Hne & Hd).
  apply note_frame_fold_set. simpl. rewrite Hf. simpl.
  by destruct file.
Qed.

Lemma upto_stop_prefix ls :
  exists pre,
    Forall (fun l => stops l = false) pre
    /\ ((upto_stop ls = pre /\ ls = pre)
        \/ exists l rest,
             stops l = true /\ ls = pre ++ l :: rest
             /\ upto_stop ls = pre ++ [l]).
Proof.
  induction ls as [|l ls (pre & Hpre & IH)]; simpl.
  - exists []. split; [constructor|by left].
  - destruct (stops l) eqn:Hs.
    + exists []. split; [constructor|]. right. by exists l, ls.
    + exists (l :: pre). split; [by constructor|].
      destruct IH as [[-> ->]|(l' & rest & ? & -> & ->)]; [by left|].
      right. by exists l', rest.
Qed.

Lemma extract_stack_trace lines i m ty :
  stack_trace (_extract_error_context lines i m ty)
  = Text.strip <$> List.filter is_frame (lookahead_window lines i).
Proof.
  unfold _extract_error_context. cbn [stack_trace].
  by rewrite lookahead_window_fold, note_frame_fold.
Qed.

(** C6 (as amended): after a match at line [i] the lookahead examines the
    lines [i+1 .. i+19], clamped to the end of the buffer, in order, up to
    and including the first blank line or line matching an error signature;
    the stack-frame-shaped lines among those examined, stripped, are the
    record's stack trace. *)
Theorem lookahead_scans_19 (lines : list string) (i : nat) (m : rmatch)
    (ty : string) :
  stack_trace (_extract_error_context lines i m ty)
  = Text.strip <$> List.filter is_frame (lookahead_window lines i)
  /\ exists pre,
       Forall (fun l => stops l = false) pre
       /\ ((lookahead_window lines i = pre
            /\ take 19 (drop (S i) lines) = pre)
           \/ exists l rest,
                stops l = true
                /\ take 19 (drop (S i) lines) = pre ++ l :: rest
                /\ lookahead_window lines i = pre ++ [l]).
Proof.
  split; [apply extract_stack_trace|]. apply upto_stop_prefix.
Qed.

(** C6, as stated, fails: with a frame on the 20th line after the match and
    nothing to stop the scan before it, the window of the specification
    holds that frame and the record's stack trace does not. *)
Lemma lookahead_20_counterexample :
  List.filter is_frame (lookahead_window_spec lookahead_cex 0)
    = ["  src/app.py:12"]
  /\ stack_trace <$> parse_lines lookahead_cex = [[]]
  /\ stack_trace <$> parse_lines lookahead_cex
     <> [Text.strip <$>
           List.filter is_frame (lookahead_window_spec lookahead_cex 0)].
Proof. by vm_compute. Qed.


Lemma slice_window (lines : list string) (i : nat) (line : string) :
  lines !! i = Some line ->
  slice lines (Z.max 0 (Z.of_nat i - 5))
        (Z.min (Z.of_nat (length lines)) (Z.of_nat i + 10))
  = drop (i - 5) (take i lines) ++ line :: take 9 (drop (S i) lines).
Proof.
  intros Hi. pose proof (lookup_lt_Some _ _ _ Hi) as Hlt. unfold slice.
  replace (Z.to_nat (Z.max 0 (Z.of_nat i - 5))) with (i - 5) by lia.
  replace (Z.to_nat (Z.min (Z.of_nat (length lines)) (Z.of_nat i + 10)))
    with (Nat.min (length lines) (i + 10)) by lia.
  rewrite <- (take_drop_middle _ _ _ Hi) at 2.
  rewrite drop_app_le by (rewrite length_take; lia).
  rewrite take_app_ge by (rewrite length_drop, length_take; lia).
  f_equal. rewrite length_drop, length_take.
  replace (length lines `min` (i + 10) - (i - 5) - (i `min` length lines - (i - 5)))
    with (S (Nat.min (length lines) (i + 10) - S i)) by lia.
  simpl. f_equal.
  destruct (Nat.le_gt_cases (i + 10) (length lines)).
  - f_equal. lia.
  - rewrite !take_ge; [done|rewrite length_drop; lia..].
Qed.



(** C9: a step that did not fail, or that has no log text, yields no
    record. *)
Theorem parse_guard (step : StepRun) :
  step_conclusion step <> Some "failure"
  \/ log_content step = None \/ log_content step = Some "" ->
  parse_step_logs step = [].
Proof.
  unfold parse_step_logs. intros [Hc|[->| ->]]; [|done..].
  destruct (log_content step) as [text|]; [|done].
  unfold is_failure.
  destruct (step_conclusion step) as [c|]; [|by rewrite orb_true_r].
  destruct (String.eqb_spec c "failure") as [->|]; [done|].
  by rewrite orb_true_r.
Qed.

Lemma try_patterns_acc patterns lines i line errors :
  try_patterns patterns lines i line errors
  = errors ++ try_patterns patterns lines i line [].
Proof.
  induction patterns as [|[p ty] ps IH]; simpl; [by rewrite app_nil_r|].
  by destruct (search true p line).
Qed.

Lemma parse_fold all (el : list (nat * string)) : forall acc,
  fold_left (fun errors il =>
               try_patterns ERROR_PATTERNS all (fst il) (snd il) errors) el acc
  = acc ++ concat ((fun il => try_patterns ERROR_PATTERNS all (fst il) (snd il) [])
                     <$> el).
Proof.
  induction el as [|il el IH]; intros acc; [by rewrite app_nil_r|].
  cbn [fold_left]. rewrite IH, try_patterns_acc, fmap_cons.
  cbn [concat]. by rewrite app_assoc.
Qed.

(** The inner loop emits the record of the first pattern that matches. *)
Lemma try_patterns_first lines i line (patterns : list (regex * string)) :
  (try_patterns patterns lines i line [] = []
   /\ forall sig, In sig patterns -> search true (fst sig) line = None)
  \/ exists k pattern ty m,
       patterns !! k = Some (pattern, ty)
       /\ search true pattern line = Some m
       /\ (forall j sig, j < k -> patterns !! j = Some sig ->
                         search true (fst sig) line = None)
       /\ try_patterns patterns lines i line []
          = [_extract_error_context lines i m ty].
Proof.
  induction patterns as [|[p ty] ps IH]; cbn [try_patterns].
  - left. split; [done|]. intros sig [].
  - destruct (search true p line) as [m|] eqn:Hs.
    + right. exists 0, p, ty, m. repeat split; [done|].
      intros j sig Hj. lia.
    + destruct IH as [[-> Hnone]|(k & p' & ty' & m & Hk & Hm & Hfirst & ->)].
      * left. split; [done|]. intros sig [<-|Hin]; [done|by apply Hnone].
      * right. exists (S k), p', ty', m. repeat split; [done..|].
        intros [|j] sig Hj; simpl; [by intros [= <-]|].
        apply Hfirst. lia.
Qed.

(** C4: the records of a log are the records of its lines, in order; a
    line yields no record when no signature matches it and otherwise exactly
    one, built from the first signature of the table that matches: a line
    that a specific signature matches is never classified as generic. *)
Theorem first_signature_wins (lines : list string) :
  parse_lines lines
  = concat ((fun il => try_patterns ERROR_PATTERNS lines (fst il) (snd il) [])
              <$> enumerate lines)
  /\ forall i line,
       (try_patterns ERROR_PATTERNS lines i line [] = []
        /\ forall sig, In sig ERROR_PATTERNS ->
                       search true (fst sig) line = None)
       \/ exists k pattern ty m,
            ERROR_PATTERNS !! k = Some (pattern, ty)
            /\ search true pattern line = Some m
            /\ (forall j sig, j < k -> ERROR_PATTERNS !! j = Some sig ->
                              search true (fst sig) line = None)
            /\ try_patterns ERROR_PATTERNS lines i line []
               = [_extract_error_context lines i m ty]
            /\ error_type (_extract_error_context lines i m ty) = ty
            /\ (ty = "generic_error" ->
                forall sig, In sig ERROR_PATTERNS ->
                            snd sig <> "generic_error" ->
                            search true (fst sig) line = None).
Proof.
  split; [apply parse_fold|]. intros i line.
  destruct (try_patterns_first lines i line ERROR_PATTERNS)
    as [?|(k & p & ty & m & Hk & Hm & Hfirst & Hrec)]; [by left|].
  right. exists k, p, ty, m. repeat split; [done..|].
  intros -> sig Hin Hty.
  assert (k = 5) as ->.
  { do 6 (destruct k as [|k]; [by inversion Hk|]). done. }
  apply list_elem_of_In, list_elem_of_lookup_1 in Hin as [j Hj].
  assert (j < 5).
  { do 5 (destruct j as [|j]; [lia|]).
    destruct j as [|j]; [|done]. by injection Hj as <-. }
  by apply (Hfirst j).
Qed.

(** Under IGNORECASE the build-error signature matches whatever the generic
    signature matches, and comes first. *)
Lemma build_error_covers_generic at0 s :
  search_from true generic_error_re at0 s
  = search_from true build_error_re at0 s.
Proof.
  revert at0. induction s as [|c s IH]; intros at0; [by destruct at0|].
  cbn [search_from]. rewrite IH.
  by replace (match_at true generic_error_re at0 (String c s))
    with (match_at true build_error_re at0 (String c s)).
Qed.

Lemma generic_error_never_emitted lines i line e :
  In e (try_patterns ERROR_PATTERNS lines i line []) ->
  error_type e <> "generic_error".
Proof.
  unfold ERROR_PATTERNS. cbn [try_patterns].
  repeat match goal with
  | |- context [search true ?p line] =>
      lazymatch p with
      | generic_error_re => fail
      | _ => destruct (search true p line) eqn:?;
               [by intros [<-|[]]|]
      end
  end.
  unfold search in *. rewrite build_error_covers_generic.
  match goal with H : search_from true build_error_re _ _ = None |- _ =>
    rewrite H end.
  intros [].
Qed.

(** ** More on the extractor: counts, types, bounds and messages *)

Lemma sappend_length (u v : string) :
  String.length (u ++ v)%string = String.length u + String.length v.
Proof. induction u as [|c u IH]; simpl; [done|]. by rewrite IH. Qed.

Lemma sappend_assoc (u v w : string) :
  ((u ++ v) ++ w = u ++ (v ++ w))%string.
Proof. induction u as [|c u IH]; simpl; [done|]. by rewrite IH. Qed.

Lemma sappend_nil_r (u : string) : (u ++ "")%string = u.
Proof. induction u as [|c u IH]; simpl; [done|]. by rewrite IH. Qed.

Lemma prefix_chars_app (u v : string) :
  Text.prefix_chars (String.length u) (u ++ v) = u.
Proof. induction u as [|c u IH]; simpl; [by destruct v|]. by rewrite IH. Qed.

Lemma consumed_app (u s' : string) : consumed (u ++ s') s' = u.
Proof.
  unfold consumed. rewrite sappend_length.
  replace (_ + _ - _) with (String.length u) by lia. apply prefix_chars_app.
Qed.

Section Pieces.
Context {A : Type}.

Lemma many_suffix p s (k : string -> option A) x :
  many p s k = Some x ->
  exists u s', k s' = Some x /\ s = (u ++ s')%string.
Proof.
  induction s as [|c s IH]; simpl; [done|].
  destruct (p c); [|done].
  destruct (many p s k) eqn:E.
  - intros [= ->]. destruct (IH eq_refl) as (u & s' & ? & ->).
    by exists (String c u), s'.
  - intros Hk. by exists (String c ""), s.
Qed.

(** A match takes a prefix of the text at which it starts. *)
Lemma run_suffix ic r :
  forall at0 s cs (k : bool -> string -> captures -> option A) x,
  run ic r at0 s cs k = Some x ->
  exists at0' s' cs' u,
    k at0' s' cs' = Some x /\ s = (u ++ s')%string.
Proof.
  induction r as [c|c|r1 IH1 r2 IH2|n r1 IH1| |]; intros at0 s cs k x; simpl.
  - destruct s as [|y s]; [done|]. destruct (cls_match ic c y); [|done].
    intros Hk. by exists false, s, cs, (String y "").
  - intros (u & s' & Hk & ->)%many_suffix. by exists false, s', cs, u.
  - intros H. apply IH1 in H as (a1 & s1 & cs1 & u1 & H & ->).
    apply IH2 in H as (a2 & s2 & cs2 & u2 & H & ->).
    exists a2, s2, cs2, (u1 ++ u2)%string. by rewrite sappend_assoc.
  - intros H. apply IH1 in H as (a1 & s1 & cs1 & u1 & H & ->).
    by exists a1, s1, ((n, consumed (u1 ++ s1) s1) :: cs1), u1.
  - destruct at0; [|done]. intros Hk. by exists true, s, cs, "".
  - intros Hk. by exists at0, s, cs, "".
Qed.

End Pieces.

Lemma match_at_piece ic r at0 s m :
  match_at ic r at0 s = Some m ->
  (exists post, s = (group0 m ++ post)%string)
  /\ (consumes r = true -> group0 m <> "").
Proof.
  unfold match_at. intros H. split.
  - apply run_suffix in H as (a & s' & cs' & u & [= <-] & ->).
    exists s'. simpl. by rewrite consumed_app.
  - intros C. apply run_inv in H as (a & s' & cs' & [= <-] & _ & Hlt & _).
    simpl. by apply consumed_nonempty, Hlt.
Qed.

(** [group(0)] of a search is a piece of the subject. *)
Lemma search_from_piece ic r s : forall at0 m,
  search_from ic r at0 s = Some m ->
  (exists pre post, s = (pre ++ group0 m ++ post)%string)
  /\ (consumes r = true -> group0 m <> "").
Proof.
  induction s as [|c s IH]; intros at0 m; simpl.
  - destruct (match_at ic r at0 "") eqn:E; [|done]. intros [= ->].
    apply match_at_piece in E as [[post E] N]. split; [|done].
    by exists "", post.
  - destruct (match_at ic r at0 (String c s)) eqn:E.
    + intros [= ->]. apply match_at_piece in E as [[post E] N].
      split; [|done]. by exists "", post.
    + intros H. apply IH in H as [(pre & post & ->) N]. split; [|done].
      by exists (String c pre), post.
Qed.

Lemma enumerate_lookup {A} (l : list A) : forall a i x,
  In (i, x) (combine (seq a (length l)) l) ->
  a <= i /\ l !! (i - a) = Some x.
Proof.
  induction l as [|y l IH]; intros a i x; simpl; [done|].
  intros [[= <- <-]|H].
  - split; [lia|]. by rewrite Nat.sub_diag.
  - apply IH in H as [Hle H]. split; [lia|].
    replace (i - a) with (S (i - S a)) by lia. done.
Qed.

Lemma snd_enumerate {A} (l : list A) : forall a,
  snd <$> combine (seq a (length l)) l = l.
Proof.
  induction l as [|y l IH]; intros a; simpl; [done|].
  f_equal. apply IH.
Qed.

(** Every record of a log comes from one of its lines. *)
Lemma parse_lines_In lines e :
  In e (parse_lines lines) ->
  exists i line,
    lines !! i = Some line
    /\ In e (try_patterns ERROR_PATTERNS lines i line []).
Proof.
  unfold parse_lines. rewrite parse_fold, app_nil_l.
  intros (x & Hx & He)%in_concat.
  apply in_map_iff in Hx as ([i line] & <- & Hil).
  apply enumerate_lookup in Hil as [_ Hil]. rewrite Nat.sub_0_r in Hil.
  by exists i, line.
Qed.

Lemma try_patterns_count lines i line (patterns : list (regex * string)) :
  length (try_patterns patterns lines i line [])
  = if existsb (fun p => match search true (fst p) line with
                         | Some _ => true
                         | None => false
                         end) patterns
    then 1 else 0.
Proof.
  induction patterns as [|[pattern ty] patterns IH]; simpl; [done|].
  by destruct (search true pattern line).
Qed.

Lemma parse_fold_count all (el : list (nat * string)) :
  length (concat ((fun il => try_patterns ERROR_PATTERNS all (fst il) (snd il) [])
                    <$> el))
  = length (List.filter matches_error (snd <$> el)).
Proof.
  induction el as [|[i line] el IH]; [done|].
  rewrite !fmap_cons. cbn [concat List.filter snd fst].
  rewrite length_app, IH, try_patterns_count.
  fold (matches_error line). by destruct (matches_error line).
Qed.

Lemma parse_lines_count lines :
  length (parse_lines lines) = length (List.filter matches_error lines).
Proof.
  unfold parse_lines. rewrite parse_fold, app_nil_l, parse_fold_count.
  unfold enumerate. by rewrite snd_enumerate.
Qed.

Lemma parse_step_logs_lines step :
  parse_step_logs step = []
  \/ exists text,
       log_content step = Some text
       /\ parse_step_logs step = parse_lines (Text.split Text.LF text).
Proof.
  unfold parse_step_logs. destruct (log_content step) as [text|]; [|by left].
  destruct (_ || _); [by left|]. right. by exists text.
Qed.

Lemma is_failure_Some c : is_failure c = true <-> c = Some "failure".
Proof.
  destruct c as [c|]; simpl; [|done]. rewrite String.eqb_eq.
  split; [by intros ->|by intros [= ->]].
Qed.

(** X4: one record for each line that matches an error signature: a line
    on which several signatures match, or one signature matches twice,
    still gives a single record, and a line on which none matches gives
    none. *)
Theorem one_record_per_matching_line (step : StepRun) (text : string) :
  step_conclusion step = Some "failure" ->
  log_content step = Some text ->
  length (parse_step_logs step)
  = length (List.filter matches_error (Text.split Text.LF text)).
Proof.
  intros Hc Ht. unfold parse_step_logs. rewrite Ht, Hc.
  destruct text as [|c text]; [by vm_compute|].
  cbn [Text.truthy negb is_failure orb]. 
  replace ("failure" =? "failure")%string with true by done.
  cbn [negb]. apply parse_lines_count.
Qed.

Lemma one_record_per_matching_line_witness :
  length (parse_step_logs
            (mkStepRun "Build" "completed" (Some "failure") 1 None None
               (Some "npm ERR! error: TypeError: x")))
  = 1.
Proof.
  rewrite (one_record_per_matching_line _ "npm ERR! error: TypeError: x");
    reflexivity.
Defined.

(** X5: the type of a record is one of five: although the table of
    signatures has six rows, the row [generic_error] is never used, since
    under IGNORECASE the row [build_error] before it matches the same
    lines. *)
Theorem record_types (step : StepRun) (e : ErrorContext) :
  In e (parse_step_logs step) ->
  In (error_type e)
     ["python_error"; "test_failure"; "build_error"; "npm_error";
      "typescript_error"].
Proof.
  intros He.
  destruct (parse_step_logs_lines step) as [E|(text & _ & E)];
    rewrite E in He; [done|].
  apply parse_lines_In in He as (i & line & _ & He).
  pose proof (generic_error_never_emitted _ _ _ _ He) as G.
  destruct (try_patterns_first (Text.split Text.LF text) i line ERROR_PATTERNS)
    as [[E0 _]|(k & pattern & ty & m & Hk & _ & _ & E1)].
  - by rewrite E0 in He.
  - rewrite E1 in He. destruct He as [<-|[]]. simpl in *.
    do 6 (destruct k as [|k]; [injection Hk as <- <-; simpl; tauto|]).
    done.
Qed.

Lemma record_types_witness :
  In demo_record (parse_step_logs demo_failed_step)
  /\ In (error_type demo_record)
        ["python_error"; "test_failure"; "build_error"; "npm_error";
         "typescript_error"].
Proof.
  assert (In demo_record (parse_step_logs demo_failed_step)) as H
    by (vm_compute; by left).
  split; [exact H|]. exact (record_types _ _ H).
Defined.

Lemma upto_stop_length ls : length (upto_stop ls) <= length ls.
Proof.
  induction ls as [|l ls IH]; simpl; [done|].
  destruct (stops l); simpl; lia.
Qed.

Lemma filter_length_le {A} (p : A -> bool) (l : list A) :
  length (List.filter p l) <= length l.
Proof.
  induction l as [|x l IH]; simpl; [done|]. destruct (p x); simpl; lia.
Qed.

Lemma note_frame_fold_none ls : forall st,
  List.filter is_frame ls = [] ->
  fold_left (fun st line => note_frame line st) ls st = st.
Proof.
  induction ls as [|l ls IH]; intros st; simpl; [done|].
  unfold is_frame at 1, note_frame at 2.
  destruct (frame_match l); [done|]. apply IH.
Qed.

Lemma extract_location (lines : list string) (i : nat) (m : rmatch)
    (ty : string) :
  length (stack_trace (_extract_error_context lines i m ty)) <= 19
  /\ (stack_trace (_extract_error_context lines i m ty) = [] ->
      file_path (_extract_error_context lines i m ty) = None
      /\ line_number (_extract_error_context lines i m ty) = None)
  /\ (stack_trace (_extract_error_context lines i m ty) <> [] ->
      exists f n,
        file_path (_extract_error_context lines i m ty) = Some f
        /\ f <> ""
        /\ line_number (_extract_error_context lines i m ty) = Some n).
Proof.
  rewrite extract_stack_trace.
  unfold _extract_error_context. cbn [file_path line_number].
  rewrite lookahead_window_fold.
  split; [|split].
  - rewrite length_fmap.
    etrans; [apply filter_length_le|]. etrans; [apply upto_stop_length|].
    unfold lookahead_window. rewrite length_take. lia.
  - intros H. apply fmap_nil_inv in H.
    by rewrite note_frame_fold_none.
  - intros H.
    destruct (List.filter is_frame (lookahead_window lines i)) as [|f rest] eqn:E;
      [done|].
    destruct (note_frame_fold_first _ (mkFrames None None []) f rest eq_refl E)
      as (fm & Hfm & -> & ->).
    destruct (frame_fields _ _ Hfm) as (file & digits & -> & Hne & ->).
    by exists file, (int_of_digits digits).
Qed.

(** X6: the primary location goes with the stack trace.  A record has at
    most 19 stack lines; without stack lines it has neither file nor line
    number; with stack lines it has both, and the file is not empty, so
    that [if not file_path] in the lookahead is true only until the first
    frame. *)
Theorem location_follows_trace (lines : list string) (i : nat) (m : rmatch)
    (ty : string) :
  length (stack_trace (_extract_error_context lines i m ty)) <= 19
  /\ (stack_trace (_extract_error_context lines i m ty) = [] ->
      file_path (_extract_error_context lines i m ty) = None
      /\ line_number (_extract_error_context lines i m ty) = None)
  /\ (stack_trace (_extract_error_context lines i m ty) <> [] ->
      exists f n,
        file_path (_extract_error_context lines i m ty) = Some f
        /\ f <> ""
        /\ line_number (_extract_error_context lines i m ty) = Some n).
Proof. apply extract_location. Qed.

Lemma lstrip_head s :
  match Text.lstrip s with
  | String c _ => Text.isspace c = false
  | EmptyString => True
  end.
Proof.
  induction s as [|c s IH]; simpl; [done|].
  destruct (Text.isspace c) eqn:E; [done|]. simpl. done.
Qed.

Lemma rstrip_idem s : Text.rstrip (Text.rstrip s) = Text.rstrip s.
Proof.
  induction s as [|c s IH]; simpl; [done|].
  destruct (Text.rstrip s) as [|d r] eqn:E.
  - destruct (Text.isspace c) eqn:S; simpl; [done|]. by rewrite S.
  - change (Text.rstrip (String c (String d r)))
      with (match Text.rstrip (String d r) with
            | EmptyString =>
                if Text.isspace c then EmptyString else String c EmptyString
            | String a r' => String c (String a r')
            end).
    by rewrite IH.
Qed.

Lemma lstrip_rstrip s :
  match s with
  | String c _ => Text.isspace c = false
  | EmptyString => True
  end ->
  Text.lstrip (Text.rstrip s) = Text.rstrip s.
Proof.
  destruct s as [|c s]; simpl; [done|]. intros S.
  destruct (Text.rstrip s); rewrite ?S; simpl; by rewrite S.
Qed.

(** [strip] gives a text that [strip] leaves as it is. *)
Lemma strip_idem s : Text.strip (Text.strip s) = Text.strip s.
Proof.
  unfold Text.strip. rewrite lstrip_rstrip by apply lstrip_head.
  apply rstrip_idem.
Qed.

(** X7: the surrounding context of a record has at most 15 entries (5
    before the line, the line, 9 after), none of them empty and none with
    white space at either end. *)
Theorem context_entries (lines : list string) (i : nat) (m : rmatch)
    (ty : string) :
  length (surrounding_context (_extract_error_context lines i m ty)) <= 15
  /\ Forall (fun entry => entry <> "" /\ Text.strip entry = entry)
            (surrounding_context (_extract_error_context lines i m ty)).
Proof.
  unfold _extract_error_context. cbn [surrounding_context]. split.
  - rewrite length_fmap. etrans; [apply filter_length_le|].
    unfold slice. rewrite length_take. lia.
  - apply Forall_fmap, Forall_forall. intros l Hl%list_elem_of_In.
    apply filter_In in Hl as [_ Hl]. simpl. split.
    + by destruct (Text.strip l).
    + apply strip_idem.
Qed.

(** X8: the message of a record is [group(0)] of the search: a non-empty
    piece of one line of the step's log, so it never spans lines and is
    never the whole log. *)
Theorem message_is_piece_of_line (step : StepRun) (text : string)
    (e : ErrorContext) :
  log_content step = Some text ->
  In e (parse_step_logs step) ->
  exists i line pre post,
    Text.split Text.LF text !! i = Some line
    /\ line = (pre ++ error_message e ++ post)%string
    /\ error_message e <> ""
    /\ no_LF (error_message e).
Proof.
  intros Ht He.
  destruct (parse_step_logs_lines step) as [E|(text' & Ht' & E)];
    rewrite E in He; [done|].
  rewrite Ht in Ht'. injection Ht' as <-.
  apply parse_lines_In in He as (i & line & Hi & He).
  destruct (try_patterns_first (Text.split Text.LF text) i line ERROR_PATTERNS)
    as [[E0 _]|(k & pattern & ty & m & Hk & Hm & _ & E1)].
  { by rewrite E0 in He. }
  rewrite E1 in He. destruct He as [<-|[]].
  apply search_from_piece in Hm as [(pre & post & Hline) Hne].
  assert (consumes pattern = true) as C.
  { do 6 (destruct k as [|k]; [by injection Hk as <- <-|]). done. }
  exists i, line, pre, post. cbn [error_message _extract_error_context].
  repeat split; [done|done|by apply Hne|].
  pose proof (split_no_LF text) as N. rewrite Forall_forall in N.
  specialize (N line (list_elem_of_lookup_2 _ _ _ Hi)).
  revert N. rewrite Hline. unfold no_LF. clear.
  induction pre as [|c pre IH].
  - cbn [String.append]. induction (group0 m) as [|c g IH]; [done|].
    cbn [String.append]. rewrite !contains_LF_cons.
    intros [-> H]%orb_false_iff. by rewrite IH.
  - cbn [String.append]. rewrite contains_LF_cons.
    intros [_ H]%orb_false_iff. by apply IH.
Qed.

Lemma message_is_piece_of_line_witness :
  exists i line pre post,
    Text.split Text.LF "make: *** Error: failed (1)" !! i = Some line
    /\ line = (pre ++ error_message demo_record ++ post)%string
    /\ error_message demo_record <> ""
    /\ no_LF (error_message demo_record).
Proof.
  apply (message_is_piece_of_line demo_failed_step).
  - reflexivity.
  - vm_compute. by left.
Defined.

(** ** The quick summary of a failed step *)

Lemma sappend_cancel_l (u a b : string) :
  (u ++ a = u ++ b)%string -> a = b.
Proof. induction u as [|c u IH]; simpl; [done|]. intros [= H]. by apply IH. Qed.

(** Every record of a step comes from a match of one of the first five
    signatures on a line of its log. *)
Lemma record_origin step e :
  In e (parse_step_logs step) ->
  exists lines i m ty,
    e = _extract_error_context lines i m ty /\ ty <> "".
Proof.
  intros He.
  destruct (parse_step_logs_lines step) as [E|(text & _ & E)];
    rewrite E in He; [done|].
  apply parse_lines_In in He as (i & line & _ & He).
  destruct (try_patterns_first (Text.split Text.LF text) i line ERROR_PATTERNS)
    as [[E0 _]|(k & pattern & ty & m & Hk & _ & _ & E1)].
  - by rewrite E0 in He.
  - rewrite E1 in He. destruct He as [<-|[]].
    exists (Text.split Text.LF text), i, m, ty. split; [done|].
    do 6 (destruct k as [|k]; [by injection Hk as <- <-|]). done.
Qed.

Lemma failure_summary_record name lines i m ty rest :
  ty <> "" ->
  failure_summary name (_extract_error_context lines i m ty :: rest)
  = Some (Text.join " "
            ([("Step '" ++ name ++ "' failed")%string;
              ("(" ++ ty ++ ")")%string]
               ++ location_part (_extract_error_context lines i m ty)
               ++ [("- " ++ Text.prefix_chars 100 (group0 m))%string])).
Proof.
  intros Hty.
  destruct (extract_location lines i m ty) as (_ & H0 & H1).
  unfold failure_summary, location_part.
  set (e := _extract_error_context lines i m ty) in *.
  assert (error_type e = ty) as -> by done.
  assert (error_message e = group0 m) as -> by done.
  assert (Text.truthy ty = true) as -> by (by destruct ty).
  destruct (stack_trace e) as [|f tr] eqn:E.
  - destruct H0 as [-> _]; done.
  - destruct H1 as (path & n & -> & Hp & ->); [done|].
    assert (Text.truthy path = true) as -> by (by destruct path).
    destruct (n =? 0)%Z.
    + by rewrite sappend_nil_r.
    + cbn. by rewrite sappend_assoc.
Qed.

Lemma startswith_app (p s : string) : Text.startswith p (p ++ s) = true.
Proof.
  induction p as [|c p IH]; simpl; [done|]. by rewrite Ascii.eqb_refl.
Qed.


Lemma join_cons2 sep (p q : string) (ps : list string) :
  Text.join sep (p :: q :: ps) = (p ++ sep ++ Text.join sep (q :: ps))%string.
Proof. done. Qed.

(** X9: the body of [extract_failure_summary] raises [IndexError] on
    exactly the records with an empty type, a file and a line number other
    than 0: [summary_parts[2]] is then read from a list of two parts. *)
Theorem summary_index_error (name : string) (e : ErrorContext)
    (rest : list ErrorContext) :
  failure_summary name (e :: rest) = None
  <-> error_type e = ""
      /\ (exists path, file_path e = Some path /\ path <> "")
      /\ (exists n, line_number e = Some n /\ n <> 0%Z).
Proof.
  unfold failure_summary.
  destruct e as [msg ty n path tr ctx].
  cbn [error_type file_path line_number error_message].
  destruct ty as [|c ty], path as [[|d path]|], n as [n|];
    cbn [Text.truthy]; try destruct (Z.eqb_spec n 0) as [->|Hn];
    cbn [app extend_part_2 lookup list_lookup];
    (split;
     [try done
     |try (intros (H1 & (p & H2 & H3) & (q & H4 & H5)); by simplify_eq)]).
  intros _. split; [done|]. split; [by eexists|by exists n].
Qed.


(** X11: the summary is the sentence [failed with no clear error message]
    exactly when the extractor finds no record in the step: the step did
    not fail, has no log, or has no line that matches a signature. *)
Theorem no_clear_message_iff (step : StepRun) :
  extract_failure_summary step
    = Some ("Step '" ++ step_name step
              ++ "' failed with no clear error message")%string
  <-> parse_step_logs step = [].
Proof.
  unfold extract_failure_summary. split; [|by intros ->].
  destruct (parse_step_logs step) as [|e rest] eqn:E; [done|].
  destruct (record_origin step e) as (lines & i & m & ty & -> & Hty).
  { rewrite E. by left. }
  rewrite failure_summary_record by done.
  cbn [app]. rewrite join_cons2. intros [= H]. exfalso. revert H.
  rewrite !sappend_assoc. intros H%sappend_cancel_l.
  by destruct (location_part _).
Qed.

(** The summary of [demo_failed_step]. *)
Example summary_demo :
  extract_failure_summary demo_failed_step
  = Some "Step 'Build' failed (build_error) - Error: failed (1)".
Proof. by vm_compute. Qed.

(** ** The error line in its own context *)

Lemma all_ascii_In (x : ascii) : In x all_ascii.
Proof.
  unfold all_ascii. apply in_map_iff. exists (nat_of_ascii x).
  split; [apply ascii_nat_embedding|].
  apply in_seq. pose proof (nat_ascii_bounded x). lia.
Qed.

Lemma visible_cls_spec ic k x :
  visible_cls ic k = true -> cls_match ic k x = true -> Text.isspace x = false.
Proof.
  unfold visible_cls. rewrite forallb_forall. intros H M.
  specialize (H x (all_ascii_In x)). rewrite M in H. simpl in H.
  by destruct (Text.isspace x).
Qed.

Section Visible.
Context {A : Type}.

Lemma run_starts_visible ic r :
  forall at0 s cs (k : bool -> string -> captures -> option A) x,
  run ic r at0 s cs k = Some x ->
  starts_visible ic r = true ->
  exists c s0, s = String c s0 /\ Text.isspace c = false.
Proof.
  induction r as [c|c|r1 IH1 r2 IH2|n r1 IH1| |]; intros at0 s cs k x; simpl;
    try done.
  - destruct s as [|y s]; [done|]. destruct (cls_match ic c y) eqn:M; [|done].
    intros _ V. exists y, s. split; [done|]. by eapply visible_cls_spec.
  - destruct s as [|y s]; [done|]. simpl.
    destruct (cls_match ic c y) eqn:M; [|done].
    intros _ V. exists y, s. split; [done|]. by eapply visible_cls_spec.
  - intros H V. by eapply IH1.
  - intros H V. by eapply IH1.
Qed.

End Visible.

Lemma search_from_visible ic r s : forall at0 m,
  search_from ic r at0 s = Some m ->
  starts_visible ic r = true ->
  exists pre c rest,
    s = (pre ++ String c rest)%string /\ Text.isspace c = false.
Proof.
  induction s as [|c s IH]; intros at0 m; simpl.
  - destruct (match_at ic r at0 "") eqn:E; [|done]. intros _ V.
    unfold match_at in E.
    by destruct (run_starts_visible _ _ _ _ _ _ _ E V) as (? & ? & ? & _).
  - destruct (match_at ic r at0 (String c s)) eqn:E.
    + intros _ V. unfold match_at in E.
      destruct (run_starts_visible _ _ _ _ _ _ _ E V) as (y & s0 & -> & S).
      by exists "", y, s0.
    + intros H V. destruct (IH _ _ H V) as (pre & y & rest & -> & S).
      by exists (String c pre), y, rest.
Qed.

Lemma rstrip_visible_head c s :
  Text.isspace c = false -> Text.rstrip (String c s) <> "".
Proof. intros S. simpl. destruct (Text.rstrip s); by rewrite ?S. Qed.

(** A line with a character that is no white space is not blank. *)
Lemma strip_visible pre c rest :
  Text.isspace c = false ->
  nonblank (pre ++ String c rest) = true.
Proof.
  intros S. unfold nonblank, Text.strip.
  assert (exists d t, Text.lstrip (pre ++ String c rest) = String d t
                      /\ Text.isspace d = false) as (d & t & -> & Sd).
  { induction pre as [|y pre IH]; cbn [String.append Text.lstrip].
    - rewrite S. by exists c, rest.
    - destruct (Text.isspace y) eqn:Sy; [done|]. by eexists _, _. }
  pose proof (rstrip_visible_head d t Sd) as N.
  by destruct (Text.rstrip (String d t)).
Qed.

Lemma contains_piece (u pre post : string) :
  Text.contains u (pre ++ u ++ post) = true.
Proof.
  induction pre as [|c pre IH].
  - cbn [String.append]. pose proof (startswith_app u post) as H.
    destruct (u ++ post)%string; simpl; by rewrite H.
  - cbn [String.append Text.contains]. rewrite IH. apply orb_true_r.
Qed.

Lemma record_origin_line step text e :
  log_content step = Some text ->
  In e (parse_step_logs step) ->
  exists i line k pattern ty m,
    Text.split Text.LF text !! i = Some line
    /\ ERROR_PATTERNS !! k = Some (pattern, ty)
    /\ search true pattern line = Some m
    /\ e = _extract_error_context (Text.split Text.LF text) i m ty.
Proof.
  intros Ht He.
  destruct (parse_step_logs_lines step) as [E|(text' & Ht' & E)];
    rewrite E in He; [done|].
  rewrite Ht in Ht'. injection Ht' as <-.
  apply parse_lines_In in He as (i & line & Hi & He).
  destruct (try_patterns_first (Text.split Text.LF text) i line ERROR_PATTERNS)
    as [[E0 _]|(k & pattern & ty & m & Hk & Hm & _ & E1)].
  { by rewrite E0 in He. }
  rewrite E1 in He. destruct He as [<-|[]].
  by exists i, line, k, pattern, ty, m.
Qed.

(** X19: the surrounding context of a record always holds the line on
    which the error was found, stripped: every signature starts with a
    character that is no white space, so the line is not blank and the
    filter keeps it. *)
Theorem context_holds_error_line (step : StepRun) (text : string)
    (e : ErrorContext) :
  log_content step = Some text ->
  In e (parse_step_logs step) ->
  exists i line,
    Text.split Text.LF text !! i = Some line
    /\ Text.contains (error_message e) line = true
    /\ In (Text.strip line) (surrounding_context e).
Proof.
  intros Ht He.
  destruct (record_origin_line step text e Ht He)
    as (i & line & k & pattern & ty & m & Hi & Hk & Hm & ->).
  exists i, line. split; [done|].
  assert (starts_visible true pattern = true) as V.
  { do 6 (destruct k as [|k]; [injection Hk as <- <-; by vm_compute|]). done. }
  split.
  - apply search_from_piece in Hm as [(pre & post & ->) _].
    cbn [error_message _extract_error_context]. apply contains_piece.
  - unfold _extract_error_context. cbn [surrounding_context].
    rewrite (slice_window _ _ _ Hi).
    apply in_map_iff. exists line. split; [done|].
    apply filter_In. split.
    + apply in_or_app. right. by left.
    + destruct (search_from_visible _ _ _ _ _ Hm V) as (pre & c & rest & -> & S).
      by apply strip_visible.
Qed.

Lemma context_holds_error_line_witness :
  exists i line,
    Text.split Text.LF "make: *** Error: failed (1)" !! i = Some line
    /\ Text.contains (error_message demo_record) line = true
    /\ In (Text.strip line) (surrounding_context demo_record).
Proof.
  apply (context_holds_error_line demo_failed_step).
  - reflexivity.
  - vm_compute. by left.
Defined.

(** ** Locality of a record *)

Lemma take_drop_ext {A} (l l' : list A) (a n : nat) :
  (forall j, a <= j < a + n -> l !! j = l' !! j) ->
  take n (drop a l) = take n (drop a l').
Proof.
  intros H. apply list_eq. intros k. rewrite !lookup_take.
  destruct (decide (k < n)); [|done]. rewrite !lookup_drop. apply H. lia.
Qed.

Lemma slice_clamped {A} (l : list A) (i : nat) :
  slice l (Z.max 0 (Z.of_nat i - 5))
        (Z.min (Z.of_nat (length l)) (Z.of_nat i + 10))
  = take (i + 10 - (i - 5)) (drop (i - 5) l).
Proof.
  unfold slice.
  replace (Z.to_nat (Z.max 0 (Z.of_nat i - 5))) with (i - 5) by lia.
  replace (Z.to_nat (Z.min (Z.of_nat (length l)) (Z.of_nat i + 10)))
    with (Nat.min (length l) (i + 10)) by lia.
  destruct (decide (i + 10 <= length l)) as [Hle|Hgt].
  - by rewrite Nat.min_r by lia.
  - rewrite Nat.min_l by lia.
    rewrite !take_ge; [done|rewrite length_drop; lia..].
Qed.

(** X21: a record depends on its neighbourhood only: two logs that agree
    on the lines [i - 5] to [i + 19] give the same record for a match at
    line [i]. *)
Theorem record_is_local (lines lines' : list string) (i : nat) (m : rmatch)
    (ty : string) :
  (forall j, i - 5 <= j < i + 20 -> lines !! j = lines' !! j) ->
  _extract_error_context lines i m ty = _extract_error_context lines' i m ty.
Proof.
  intros H. unfold _extract_error_context.
  rewrite !lookahead_window_fold, !slice_clamped. unfold lookahead_window.
  rewrite (take_drop_ext lines lines' (S i) 19) by (intros j Hj; apply H; lia).
  rewrite (take_drop_ext lines lines' (i - 5)) by (intros j Hj; apply H; lia).
  done.
Qed.

Lemma record_is_local_witness :
  _extract_error_context (repeat "error: a" 20 ++ ["  src/app.py:12"]) 0
    (mkMatch "error: a" []) "build_error"
  = _extract_error_context (repeat "error: a" 20 ++ ["done"; "done"]) 0
      (mkMatch "error: a" []) "build_error".
Proof.
  apply record_is_local. intros j Hj.
  do 20 (destruct j as [|j]; [reflexivity|]). lia.
Defined.

(** ** [json.loads] *)

Import Json.

Lemma skip_ws_length s : length (skip_ws s) <= length s.
Proof.
  induction s as [|c s IH]; simpl; [done|].
  destruct (_ || _)%bool; simpl; lia.
Qed.

Lemma digits_length s : length (snd (U.digits s)) <= length s.
Proof.
  induction s as [|c s IH]; simpl; [done|].
  destruct (U.isdigit c); simpl; lia.
Qed.

Lemma startswith_length p s :
  U.startswith p s = true -> length p <= length s.
Proof.
  revert s. induction p as [|a p IH]; intros [|b s]; simpl; try done; [lia|].
  intros [_ H]%andb_true_iff. apply IH in H. lia.
Qed.

Lemma push_inv c r text rest :
  push c r = Some (text, rest) -> exists text', r = Some (text', rest).
Proof. destruct r as [[t r']|]; simpl; [|done]. intros [= _ <-]. eauto. Qed.

Lemma scan_string_length : forall s text rest,
  scan_string s = Some (text, rest) -> length rest < length s.
Proof.
  intros s. remember (length s) as n eqn:Hn. revert s Hn.
  induction n as [n IH] using lt_wf_ind. intros s -> text rest.
  assert (Hrec : forall s' c text rest,
             length s' < length s ->
             push c (scan_string s') = Some (text, rest) ->
             length rest < length s).
  { intros s' c t r Hlt (t' & Hs)%push_inv.
    apply (IH _ Hlt _ eq_refl) in Hs. lia. }
  destruct s as [|c s1]; [done|]. cbn [scan_string].
  repeat case_match; subst; try done;
    try (intros [= <- <-]; simpl; lia);
    (let Hp := fresh "Hp" in
     intros Hp; eapply Hrec; [|exact Hp]; simpl; lia).
Qed.

Lemma scan_number_length s neg ds frac ex rest :
  scan_number s = Some (neg, ds, frac, ex, rest) -> length rest < length s.
Proof.
  unfold scan_number.
  assert (Hm : length (snd (scan_minus s)) <= length s).
  { destruct s as [|c s]; simpl; [done|]. destruct (c =? 45)%N; simpl; lia. }
  destruct (scan_int (snd (scan_minus s))) as [[ds' s1]|] eqn:Hi; [|done].
  assert (Hi' : length s1 < length (snd (scan_minus s))).
  { unfold scan_int in Hi. pose proof (digits_length). 
    repeat case_match; simplify_eq; simpl; [lia|].
    match goal with |- context [U.digits ?x] =>
      pose proof (digits_length x) end. lia. }
  assert (Hf : length (snd (scan_frac s1)) <= length s1).
  { unfold scan_frac. repeat case_match; simpl; try lia.
    match goal with |- context [U.digits ?x] =>
      pose proof (digits_length x) end. lia. }
  assert (He : forall t, length (snd (scan_exp t)) <= length t).
  { intros t. unfold scan_exp.
    destruct t as [|e t]; [done|]. destruct (_ || _)%bool; [|done].
    destruct (fst (U.digits _)); [done|]. cbn [snd].
    pose proof (digits_length (snd (scan_exp_sign t))).
    assert (length (snd (scan_exp_sign t)) <= length t).
    { unfold scan_exp_sign. repeat case_match; simpl; lia. }
    simpl. lia. }
  intros [= <- <- <- <- <-]. specialize (He (snd (scan_frac s1))). lia.
Qed.

Lemma startswith_drop p s :
  U.startswith p s = true -> p <> [] -> length (drop (length p) s) < length s.
Proof.
  intros H%startswith_length Hp. rewrite length_drop.
  destruct p; [done|]. simpl in *. lia.
Qed.

Lemma scan_scalar_length s v rest :
  scan_scalar s = POk v rest -> length rest < length s.
Proof.
  unfold scan_scalar.
  destruct (U.startswith (codes "null") s) eqn:E1;
    [intros [= <- <-]; by apply (startswith_drop _ _ E1)|].
  destruct (U.startswith (codes "true") s) eqn:E2;
    [intros [= <- <-]; by apply (startswith_drop _ _ E2)|].
  destruct (U.startswith (codes "false") s) eqn:E3;
    [intros [= <- <-]; by apply (startswith_drop _ _ E3)|].
  destruct (scan_number s) as [[[[[neg ds] frac] ex] r]|] eqn:Hn;
    [intros [= <- <-]; by apply scan_number_length in Hn|].
  destruct (U.startswith (codes "NaN") s) eqn:E4;
    [intros [= <- <-]; by apply (startswith_drop _ _ E4)|].
  destruct (U.startswith (codes "Infinity") s) eqn:E5;
    [intros [= <- <-]; by apply (startswith_drop _ _ E5)|].
  destruct (U.startswith (codes "-Infinity") s) eqn:E6;
    [intros [= <- <-]; by apply (startswith_drop _ _ E6)|].
  done.
Qed.

(** A value takes at least one character. *)
Lemma parse_shrinks fuel :
  (forall s v rest, parse_value fuel s = POk v rest -> length rest < length s)
  /\ (forall s acc v rest,
        parse_elements fuel s acc = POk v rest -> length rest < length s)
  /\ (forall s acc v rest,
        parse_members fuel s acc = POk v rest -> length rest < length s).
Proof.
  induction fuel as [|fuel (IHv & IHe & IHm)]; [by repeat split|].
  repeat split.
  - intros s v rest. cbn [parse_value].
    destruct s as [|c s1]; [done|].
    destruct (c =? 34)%N.
    { destruct (scan_string s1) as [[t r]|] eqn:Hs; [|done].
      intros [= <- <-]. apply scan_string_length in Hs. simpl. lia. }
    destruct (c =? 123)%N.
    { pose proof (skip_ws_length s1).
      destruct (skip_ws s1) as [|c' s2]; [done|]. simpl in *.
      destruct (c' =? 125)%N; [intros [= <- <-]; lia|].
      destruct (c' =? 34)%N; [|done]. intros H'%IHm. lia. }
    destruct (c =? 91)%N.
    { pose proof (skip_ws_length s1).
      destruct (skip_ws s1) as [|c' s2]; [done|]. simpl in *.
      destruct (c' =? 93)%N; [intros [= <- <-]; lia|].
      intros H'%IHe. simpl in H'. lia. }
    apply scan_scalar_length.
  - intros s acc v rest. cbn [parse_elements].
    destruct (parse_value fuel s) as [v' r| |] eqn:Hv; [|done..].
    apply IHv in Hv. pose proof (skip_ws_length r).
    destruct (skip_ws r) as [|c s1]; [done|]. simpl in *.
    destruct (c =? 93)%N; [intros [= <- <-]; lia|].
    destruct (c =? 44)%N; [|done]. intros H'%IHe.
    pose proof (skip_ws_length s1). lia.
  - intros s acc v rest. cbn [parse_members].
    destruct (scan_string s) as [[key r]|] eqn:Hs; [|done].
    apply scan_string_length in Hs. pose proof (skip_ws_length r).
    destruct (skip_ws r) as [|colon s1]; [done|]. simpl in *.
    destruct (negb _); [done|].
    destruct (parse_value fuel (skip_ws s1)) as [v' r'| |] eqn:Hv; [|done..].
    apply IHv in Hv. pose proof (skip_ws_length s1).
    pose proof (skip_ws_length r').
    destruct (skip_ws r') as [|c s2]; [done|]. simpl in *.
    destruct (c =? 125)%N; [intros [= <- <-]; lia|].
    destruct (c =? 44)%N; [|done].
    pose proof (skip_ws_length s2).
    destruct (skip_ws s2) as [|q s3]; [done|]. simpl in *.
    destruct (q =? 34)%N; [|done]. intros H'%IHm. lia.
Qed.

(** Fuel twice the length of the text is never exhausted. *)
Lemma parse_fuel fuel :
  (forall s, 2 * length s + 1 <= fuel -> parse_value fuel s <> PFuel)
  /\ (forall s acc,
        2 * length s + 2 <= fuel -> parse_elements fuel s acc <> PFuel)
  /\ (forall s acc,
        2 * length s + 2 <= fuel -> parse_members fuel s acc <> PFuel).
Proof.
  induction fuel as [|fuel (IHv & IHe & IHm)]; [repeat split; intros; lia|].
  destruct (parse_shrinks fuel) as (Sv & Se & Sm).
  repeat split.
  - intros s Hf. cbn [parse_value].
    destruct s as [|c s1]; [done|]. simpl in Hf.
    destruct (c =? 34)%N; [by destruct (scan_string s1) as [[? ?]|]|].
    destruct (c =? 123)%N.
    { pose proof (skip_ws_length s1).
      destruct (skip_ws s1) as [|c' s2]; [done|]. simpl in *.
      destruct (c' =? 125)%N; [done|].
      destruct (c' =? 34)%N; [|done]. apply IHm. lia. }
    destruct (c =? 91)%N.
    { pose proof (skip_ws_length s1).
      destruct (skip_ws s1) as [|c' s2]; [done|]. simpl in *.
      destruct (c' =? 93)%N; [done|]. apply IHe. simpl. lia. }
    unfold scan_scalar. by repeat case_match.
  - intros s acc Hf. cbn [parse_elements].
    destruct (parse_value fuel s) as [v' r| |] eqn:Hv; [|done|].
    + apply Sv in Hv. pose proof (skip_ws_length r).
      destruct (skip_ws r) as [|c s1]; [done|]. simpl in *.
      destruct (c =? 93)%N; [done|].
      destruct (c =? 44)%N; [|done]. apply IHe.
      pose proof (skip_ws_length s1). lia.
    + exfalso. revert Hv. apply IHv. lia.
  - intros s acc Hf. cbn [parse_members].
    destruct (scan_string s) as [[key r]|] eqn:Hs; [|done].
    apply scan_string_length in Hs. pose proof (skip_ws_length r).
    destruct (skip_ws r) as [|colon s1]; [done|]. simpl in *.
    destruct (negb _); [done|]. pose proof (skip_ws_length s1).
    destruct (parse_value fuel (skip_ws s1)) as [v' r'| |] eqn:Hv; [|done|].
    + apply Sv in Hv. pose proof (skip_ws_length r').
      destruct (skip_ws r') as [|c s2]; [done|]. simpl in *.
      destruct (c =? 125)%N; [done|].
      destruct (c =? 44)%N; [|done].
      pose proof (skip_ws_length s2).
      destruct (skip_ws s2) as [|q s3]; [done|]. simpl in *.
      destruct (q =? 34)%N; [|done]. apply IHm. lia.
    + exfalso. revert Hv. apply IHv. lia.
Qed.

(** [loads] never runs out of fuel: it fails only where the decoder raises
    [JSONDecodeError]. *)
Lemma loads_fuel s : parse_value (fuel_for s) (skip_ws s) <> PFuel.
Proof.
  apply parse_fuel. unfold fuel_for. pose proof (skip_ws_length s). lia.
Qed.

(** ** ContextBuilder *)

Lemma heading_free_fold (pre : string) (xs : list string) :
  (forall x, is_error_heading (pre ++ x) = false) ->
  forall parts,
    List.filter is_error_heading
      (fold_left (fun parts x => parts ++ [(pre ++ x)%string]) xs parts)
    = List.filter is_error_heading parts.
Proof.
  intros Hpre. induction xs as [|x xs IH]; intros parts; [done|].
  cbn [fold_left]. rewrite IH, List.filter_app. cbn [List.filter].
  by rewrite Hpre, app_nil_r.
Qed.

Lemma append_error_headings parts i e :
  List.filter is_error_heading (append_error parts (i, e))
  = List.filter is_error_heading parts
      ++ [("### Error " ++ str_of_int (Z.of_nat i))%string].
Proof.
  unfold append_error.
  rewrite List.filter_app. cbn [List.filter]. rewrite app_nil_r.
  set (base := parts ++ _).
  assert (Hbase : List.filter is_error_heading base
                  = List.filter is_error_heading parts
                      ++ [("### Error " ++ str_of_int (Z.of_nat i))%string]).
  { unfold base. rewrite List.filter_app. done. }
  set (located := match file_path e with Some _ => _ | None => _ end).
  assert (Hloc : List.filter is_error_heading located
                 = List.filter is_error_heading base).
  { unfold located. destruct (file_path e) as [path|]; [|done].
    destruct (Text.truthy path); [|done].
    rewrite List.filter_app. simpl. by rewrite app_nil_r. }
  destruct (stack_trace e) as [|l ls]; [by rewrite Hloc|].
  rewrite (heading_free_fold "  ") by done.
  rewrite List.filter_app. simpl. by rewrite app_nil_r, Hloc.
Qed.

Lemma append_error_fold_headings (ies : list (nat * ErrorContext)) :
  forall parts,
    length (List.filter is_error_heading (fold_left append_error ies parts))
    = length (List.filter is_error_heading parts) + length ies.
Proof.
  induction ies as [|[i e] ies IH]; intros parts; cbn [fold_left length]; [lia|].
  rewrite IH, append_error_headings, length_app. cbn [length]. lia.
Qed.

Lemma context_headings wr fj fs errors :
  length (List.filter is_error_heading (context_parts wr fj fs errors))
  = Nat.min 5 (length errors).
Proof.
  unfold context_parts.
  rewrite append_error_fold_headings, List.filter_app.
  rewrite (heading_free_fold "- ") by done.
  rewrite List.filter_app, (heading_free_fold "- ") by done.
  unfold enumerate_from_1. rewrite length_combine, length_seq, length_take.
  simpl. lia.
Qed.

Lemma context_first_five wr fj fs errors :
  context_parts wr fj fs errors = context_parts wr fj fs (take 5 errors).
Proof. unfold context_parts. by rewrite take_take. Qed.

(** ** ResponseInterpreter *)

(** Whatever the interpreter returns carries the lists it was given. *)
Lemma parse_keeps_inputs run fj fs errors reply a :
  _parse_llm_response run fj fs errors reply = Returned a ->
  workflow_run_id a = run /\ failed_jobs a = fj /\ failed_steps a = fs
  /\ error_contexts a = errors.
Proof.
  unfold _parse_llm_response.
  destruct (Json.loads (cleaned reply)) as [v|]; [|by intros [= <-]].
  destruct v; try done.
  destruct (py_float _); [|done]. by intros [= <-].
Qed.

(** A reply that [json.loads] rejects gives the fallback. *)
Lemma decode_error_falls_back run fj fs errors reply :
  Json.loads (cleaned reply) = None ->
  _parse_llm_response run fj fs errors reply
  = Returned (fallback run fj fs errors reply).
Proof. unfold _parse_llm_response. by intros ->. Qed.

(** C1: the interpreter does not turn every unparsable reply into the
    fallback.  A reply that is JSON but not an object, and an object whose
    confidence is not a number, make it raise. *)
Theorem unexpected_shape_raises (run : Z) (fj fs : list string)
    (errors : list ErrorContext) :
  _parse_llm_response run fj fs errors (reply_text "[]")
    = Raised AttributeError
  /\ _parse_llm_response run fj fs errors (reply_text "{'confidence': 'high'}")
    = Raised ValueError
  /\ _parse_llm_response run fj fs errors (reply_text "{'confidence': null}")
    = Raised TypeError.
Proof. by vm_compute. Qed.




(** C3: the context document is built from the first five records alone
    and has one error heading for each of them, while every result of the
    interpreter, and so of the pipeline, carries all the records. *)
Theorem context_caps_errors (wr : WorkflowRun) (fj fs : list string)
    (errors : list ErrorContext) :
  _build_analysis_context wr fj fs errors
    = _build_analysis_context wr fj fs (take 5 errors)
  /\ length (List.filter is_error_heading (context_parts wr fj fs errors))
     = Nat.min 5 (length errors)
  /\ (forall run reply a,
        _parse_llm_response run fj fs errors reply = Returned a ->
        error_contexts a = errors)
  /\ (forall query_llm a,
        analyze_workflow_failure query_llm wr = Returned a ->
        error_contexts a = all_errors (collect wr)).
Proof.
  repeat split.
  - unfold _build_analysis_context. by rewrite context_first_five.
  - apply context_headings.
  - intros run reply a H. by apply parse_keeps_inputs in H as (_ & _ & _ & ?).
  - intros query_llm a H.
    by apply parse_keeps_inputs in H as (_ & _ & _ & ?).
Qed.

(** ** More on the analyzer: what is collected and what the context holds *)

Lemma fold_left_snoc {A B} (f : A -> B) (xs : list A) : forall init,
  fold_left (fun parts x => parts ++ [f x]) xs init = init ++ (f <$> xs).
Proof.
  induction xs as [|x xs IH]; intros init; cbn [fold_left].
  - by rewrite app_nil_r.
  - rewrite IH, <- app_assoc. done.
Qed.

Lemma parse_step_logs_failed_only step :
  step_failed step = false -> parse_step_logs step = [].
Proof.
  unfold step_failed, parse_step_logs. intros ->.
  destruct (log_content step); [|done]. by rewrite orb_true_r.
Qed.

Lemma collect_step_fold job (sts : list StepRun) : forall acc,
  fold_left (collect_step job) sts acc
  = mkCollected
      (all_errors acc ++ concat (parse_step_logs <$> sts))
      (failed_job_names acc)
      (failed_step_names acc
         ++ (step_label job <$> List.filter step_failed sts)).
Proof.
  induction sts as [|s sts IH]; intros acc; cbn [fold_left].
  - destruct acc. simpl. by rewrite !app_nil_r.
  - rewrite IH. unfold collect_step. rewrite fmap_cons.
    cbn [concat List.filter]. fold (step_failed s).
    destruct (step_failed s) eqn:F.
    + cbn [all_errors failed_job_names failed_step_names].
      rewrite fmap_cons, <- !app_assoc. done.
    + by rewrite parse_step_logs_failed_only.
Qed.

Lemma collect_job_fold (js : list JobRun) : forall acc,
  fold_left collect_job js acc
  = mkCollected
      (all_errors acc
         ++ concat (parse_step_logs
                      <$> concat (job_steps <$> List.filter job_failed js)))
      (failed_job_names acc ++ (job_name <$> List.filter job_failed js))
      (failed_step_names acc
         ++ concat ((fun job => step_label job
                                  <$> List.filter step_failed (job_steps job))
                      <$> List.filter job_failed js)).
Proof.
  induction js as [|j js IH]; intros acc; cbn [fold_left].
  - destruct acc. simpl. by rewrite !app_nil_r.
  - rewrite IH. unfold collect_job. cbn [List.filter]. fold (job_failed j).
    destruct (job_failed j) eqn:F; [|done].
    rewrite collect_step_fold.
    cbn [all_errors failed_job_names failed_step_names].
    rewrite !fmap_cons. cbn [concat]. rewrite fmap_app, concat_app.
    by rewrite <- !app_assoc.
Qed.

(** X12: what [analyze_workflow_failure] collects.  The job names are
    those of the failed jobs, in order; the step labels are those of the
    failed steps of failed jobs; the records are those of every step of
    the failed jobs, the extractor itself giving none for a step that did
    not fail.  A failed step of a job that did not fail is left out of all
    three lists. *)
Theorem collect_failed_jobs_only (workflow_run : WorkflowRun) :
  failed_job_names (collect workflow_run)
    = job_name <$> List.filter job_failed (jobs workflow_run)
  /\ failed_step_names (collect workflow_run)
     = concat ((fun job => step_label job
                             <$> List.filter step_failed (job_steps job))
                 <$> List.filter job_failed (jobs workflow_run))
  /\ all_errors (collect workflow_run)
     = concat (parse_step_logs
                 <$> concat (job_steps
                               <$> List.filter job_failed (jobs workflow_run))).
Proof. unfold collect. by rewrite collect_job_fold. Qed.

(** The lists collected from [demo_failed_run]: nothing of job [lint]. *)
Example collect_demo :
  collect demo_failed_run
  = mkCollected [demo_record] ["build"] ["build/Build"].
Proof. by vm_compute. Qed.

(** X13: a returned analysis names the run and the failed jobs and steps
    of the run itself: no reply of the service can change them. *)
Theorem analysis_names_the_run (query_llm : string -> ustr)
    (workflow_run : WorkflowRun) (a : FailureAnalysis) :
  analyze_workflow_failure query_llm workflow_run = Returned a ->
  workflow_run_id a = run_id workflow_run
  /\ failed_jobs a = job_name <$> List.filter job_failed (jobs workflow_run)
  /\ Forall (fun label =>
               exists job step,
                 In job (jobs workflow_run) /\ In step (job_steps job)
                 /\ job_failed job = true /\ step_failed step = true
                 /\ label = step_label job step)
            (failed_steps a).
Proof.
  unfold analyze_workflow_failure.
  intros (-> & -> & -> & _)%parse_keeps_inputs.
  unfold collect. rewrite collect_job_fold.
  cbn [failed_job_names failed_step_names app].
  split; [done|]. split; [done|].
  apply Forall_forall. intros label Hl%list_elem_of_In.
  apply in_concat in Hl as (labels & Hls & Hl).
  apply in_map_iff in Hls as (job & <- & Hj%filter_In).
  apply in_map_iff in Hl as (step & <- & Hs%filter_In).
  exists job, step. tauto.
Qed.

Lemma analysis_names_the_run_witness :
  exists a,
    analyze_workflow_failure (fun _ => demo_reply) demo_failed_run = Returned a
    /\ workflow_run_id a = 42%Z
    /\ failed_jobs a = ["build"]
    /\ failed_steps a = ["build/Build"].
Proof.
  exists (mkFailureAnalysis 42%Z (PyStr (codes "S")) ["build"] ["build/Build"]
            [demo_record] (PyStr (codes "C")) (PyList [PyStr (codes "A")])
            (S754_finite false 8106479329266893 (-53))).
  assert (analyze_workflow_failure (fun _ => demo_reply) demo_failed_run
          = Returned
              (mkFailureAnalysis 42%Z (PyStr (codes "S")) ["build"]
                 ["build/Build"] [demo_record] (PyStr (codes "C"))
                 (PyList [PyStr (codes "A")])
                 (S754_finite false 8106479329266893 (-53)))) as H
    by (vm_compute; reflexivity).
  split; [exact H|].
  destruct (analysis_names_the_run _ _ _ H) as (H1 & H2 & _).
  split; [exact H1|]. split; [exact H2|reflexivity].
Defined.

Lemma append_error_length parts ie :
  length parts + 4 <= length (append_error parts ie)
  /\ length (append_error parts ie) <= length parts + 16.
Proof.
  destruct ie as [i e]. unfold append_error.
  set (base := parts ++ _).
  assert (length base = length parts + 3) as Hbase
    by (unfold base; by rewrite length_app).
  set (located := match file_path e with Some _ => _ | None => _ end).
  assert (length base <= length located <= length base + 1) as Hloc.
  { unfold located. destruct (file_path e) as [path|]; [|lia].
    destruct (Text.truthy path); [|lia]. rewrite length_app. simpl. lia. }
  rewrite length_app. cbn [length].
  destruct (stack_trace e) as [|l ls]; [lia|].
  rewrite fold_left_snoc, !length_app, length_fmap, length_take.
  cbn [length]. lia.
Qed.

Lemma append_error_fold_length (ies : list (nat * ErrorContext)) :
  forall parts,
    length parts + 4 * length ies <= length (fold_left append_error ies parts)
    /\ length (fold_left append_error ies parts)
       <= length parts + 16 * length ies.
Proof.
  induction ies as [|ie ies IH]; intros parts; cbn [fold_left length]; [lia|].
  destruct (IH (append_error parts ie)) as [? ?].
  destruct (append_error_length parts ie) as [? ?]. lia.
Qed.

Lemma fold_left_append_prefix (ies : list (nat * ErrorContext)) :
  forall parts, exists more,
    fold_left append_error ies parts = parts ++ more.
Proof.
  induction ies as [|[i e] ies IH]; intros parts; cbn [fold_left].
  - exists []. by rewrite app_nil_r.
  - destruct (IH (append_error parts (i, e))) as [more ->].
    assert (exists block, append_error parts (i, e) = parts ++ block)
      as [block ->].
    { unfold append_error.
      set (located := match file_path e with Some _ => _ | None => _ end).
      assert (exists b, located = parts ++ b) as [b ->].
      { unfold located. destruct (file_path e) as [path|].
        - destruct (Text.truthy path); rewrite <- ?app_assoc; by eexists.
        - by eexists. }
      destruct (stack_trace e).
      - rewrite <- app_assoc. by eexists.
      - rewrite fold_left_snoc, <- !app_assoc. by eexists. }
    rewrite <- app_assoc. by eexists.
Qed.

(** X14: the size of the context document.  It has 14 fixed parts, one
    part for each failed job and step, and between 4 and 16 parts for each
    of the first five records: the error part never has more than 80
    parts, however many records there are and however long their stack
    traces. *)
Theorem context_size (workflow_run : WorkflowRun)
    (failed_jobs failed_steps : list string) (errors : list ErrorContext) :
  14 + length failed_jobs + length failed_steps
    + 4 * Nat.min 5 (length errors)
    <= length (context_parts workflow_run failed_jobs failed_steps errors)
  /\ length (context_parts workflow_run failed_jobs failed_steps errors)
     <= 14 + length failed_jobs + length failed_steps + 80.
Proof.
  unfold context_parts. rewrite !fold_left_snoc.
  match goal with
  | |- context [fold_left append_error ?ies ?parts] =>
      destruct (append_error_fold_length ies parts) as [Hlo Hhi];
      assert (length ies = Nat.min 5 (length errors)) as Hn
        by (unfold enumerate_from_1;
            rewrite length_combine, length_seq, length_take; lia);
      assert (length parts = 14 + length failed_jobs + length failed_steps)
        as Hp by (rewrite !length_app, !length_fmap; simpl; lia)
  end.
  lia.
Qed.

(** X15: the context lists every failed job and every failed step: only
    the records are capped. *)
Theorem context_lists_all_failures (workflow_run : WorkflowRun)
    (failed_jobs failed_steps : list string) (errors : list ErrorContext) :
  (forall job, In job failed_jobs ->
     In ("- " ++ job)%string
        (context_parts workflow_run failed_jobs failed_steps errors))
  /\ (forall step, In step failed_steps ->
        In ("- " ++ step)%string
           (context_parts workflow_run failed_jobs failed_steps errors)).
Proof.
  unfold context_parts. rewrite !fold_left_snoc.
  match goal with
  | |- context [fold_left append_error ?ies ?parts] =>
      destruct (fold_left_append_prefix ies parts) as [more ->]
  end.
  split.
  - intros job Hj. apply in_or_app. left. apply in_or_app. left.
    apply in_or_app. left. apply in_or_app. left. apply in_or_app. right.
    apply in_map_iff. by exists job.
  - intros step Hs. apply in_or_app. left. apply in_or_app. left.
    apply in_or_app. right. apply in_map_iff. by exists step.
Qed.

(** *** Code fences *)

Lemma U_rstrip_end (s t : ustr) :
  U.rstrip t = t -> t <> [] -> U.rstrip (s ++ t) = s ++ t.
Proof.
  intros Ht Hne. induction s as [|c s IH]; [done|].
  cbn [app U.rstrip]. rewrite IH. destruct (s ++ t) eqn:E; [|done].
  by apply app_eq_nil in E as [_ ->].
Qed.

Lemma U_split_cons_inv sep s : exists l ls, U.split sep s = l :: ls.
Proof.
  induction s as [|c s (l & ls & IH)]; simpl; [by eexists _, _|].
  destruct (N.eqb c sep); [by eexists _, _|]. rewrite IH. by eexists _, _.
Qed.

Lemma U_split_app sep (a b : ustr) :
  U.split sep (a ++ sep :: b) = U.split sep a ++ U.split sep b.
Proof.
  induction a as [|c a IH]; cbn [app U.split].
  - by rewrite N.eqb_refl.
  - rewrite IH. destruct (N.eqb c sep); [done|].
    by destruct (U_split_cons_inv sep a) as (l & ls & ->).
Qed.

Lemma U_split_single sep (t : ustr) :
  Forall (fun c => c <> sep) t -> U.split sep t = [t].
Proof.
  induction 1 as [|c t Hc _ IH]; cbn [U.split]; [done|].
  apply N.eqb_neq in Hc. by rewrite Hc, IH.
Qed.

Lemma U_join_split sep (s : ustr) : U.join [sep] (U.split sep s) = s.
Proof.
  induction s as [|c s IH]; cbn [U.split]; [done|].
  destruct (N.eqb_spec c sep) as [->|Hc].
  - destruct (U_split_cons_inv sep s) as (l & ls & E). rewrite E in *.
    change (U.join [sep] ([] :: l :: ls))
      with (sep :: U.join [sep] (l :: ls)). by rewrite IH.
  - destruct (U_split_cons_inv sep s) as (l & ls & E). rewrite E in *.
    rewrite <- IH. by destruct ls.
Qed.

(** X16: a reply in a code fence with any language tag is unwrapped to
    exactly the text between the fence lines, which is handed to
    [json.loads] without being stripped. *)
Theorem fenced_reply_unwrapped (tag reply : ustr) :
  Forall (fun c => c <> 10%N) tag ->
  cleaned (fenced_with tag reply) = reply.
Proof.
  intros Htag. unfold cleaned, fenced_with.
  change (codes "```") with [96; 96; 96]%N.
  set (pre := ([96; 96; 96] ++ tag ++ [10] ++ reply ++ [10])%N).
  assert (([96; 96; 96] ++ tag ++ [10] ++ reply ++ [10] ++ [96; 96; 96])%N
          = pre ++ [96; 96; 96]%N) as ->
    by (unfold pre; by rewrite <- !app_assoc).
  assert (U.strip (pre ++ [96; 96; 96]%N) = pre ++ [96; 96; 96]%N) as ->.
  { unfold U.strip.
    assert (U.lstrip (pre ++ [96; 96; 96]%N) = pre ++ [96; 96; 96]%N) as ->
      by done.
    by apply U_rstrip_end. }
  assert (U.startswith [96; 96; 96]%N (pre ++ [96; 96; 96]%N) = true) as ->
    by done.
  assert (pre ++ [96; 96; 96]%N
          = ([96; 96; 96] ++ tag) ++ 10 :: reply ++ 10 :: [96; 96; 96])%N as ->
    by (unfold pre; by rewrite <- !app_assoc).
  rewrite !U_split_app.
  rewrite (U_split_single _ ([96; 96; 96] ++ tag))%N
    by (repeat constructor; done).
  change (U.split 10 [96; 96; 96])%N with [[96; 96; 96]]%N.
  unfold inner. cbn [app tail]. rewrite removelast_last.
  apply U_join_split.
Qed.

Lemma fenced_reply_unwrapped_witness :
  cleaned (fenced_with (codes "json") demo_reply) = demo_reply.
Proof.
  apply fenced_reply_unwrapped. vm_compute. repeat constructor; done.
Defined.

(** X17: [split(LF)[1:-1]] drops the last line of a fenced reply whether
    or not it is a fence: a reply that starts with a fence and has fewer
    than three lines leaves nothing to decode and gives the fallback, even
    if it holds a valid object. *)
Theorem short_fenced_reply_falls_back (run : Z) (fj fs : list string)
    (errors : list ErrorContext) (reply : ustr) :
  U.startswith (codes "```") (U.strip reply) = true ->
  length (U.split 10 (U.strip reply)) <= 2 ->
  _parse_llm_response run fj fs errors reply
  = Returned (fallback run fj fs errors reply).
Proof.
  intros Hf Hl. unfold _parse_llm_response, cleaned. rewrite Hf.
  assert (inner (U.split 10 (U.strip reply)) = []) as ->.
  { destruct (U.split _ _) as [|a [|b [|c l]]]; simpl in Hl; try done. lia. }
  done.
Qed.

Lemma short_fenced_reply_falls_back_witness :
  _parse_llm_response 42 [] [] []
    (codes "```json" ++ [10%N] ++ demo_reply ++ codes "```")
  = Returned
      (fallback 42 [] [] []
         (codes "```json" ++ [10%N] ++ demo_reply ++ codes "```")).
Proof.
  apply short_fenced_reply_falls_back.
  - vm_compute. reflexivity.
  - vm_compute. lia.
Defined.

(** ** From the reply to the colour shown *)

Lemma dict_get_absent (data : list (ustr * pyval)) key : forall default,
  Forall (fun kv => U.eqb (fst kv) key = false) data ->
  dict_get data key default = default.
Proof.
  induction data as [|[k v] data IH]; intros default H; simpl; [done|].
  inversion H as [|? ? Hk Hd]; subst. simpl in Hk. rewrite Hk. by apply IH.
Qed.

(** X20: what the command line shows for a returned analysis.  A reply
    that [json.loads] rejects is shown in red (confidence 0.0), an object
    without [confidence] in yellow (0.5), and a confidence that is not a
    number in red as well. *)
Theorem confidence_color_of_reply (run : Z) (fj fs : list string)
    (errors : list ErrorContext) (reply : ustr) (a : FailureAnalysis) :
  _parse_llm_response run fj fs errors reply = Returned a ->
  (Json.loads (cleaned reply) = None ->
   confidence_color (confidence a) = "red")
  /\ (forall data,
        Json.loads (cleaned reply) = Some (PyDict data) ->
        lacks_confidence data ->
        confidence_color (confidence a) = "yellow")
  /\ (confidence a = S754_nan -> confidence_color (confidence a) = "red").
Proof.
  unfold _parse_llm_response. intros H. split; [|split].
  - intros E. rewrite E in H. by injection H as <-.
  - intros data E L. rewrite E in H.
    rewrite (dict_get_absent data _ _ L) in H. simpl in H.
    by injection H as <-.
  - by intros ->.
Qed.

Lemma confidence_color_of_reply_witness :
  confidence_color
    (confidence (fallback 42 [] [] [] (codes "oops"))) = "red".
Proof.
  refine (proj1 (confidence_color_of_reply 42 [] [] [] (codes "oops")
                   (fallback 42 [] [] [] (codes "oops")) _) _).
  - vm_compute. reflexivity.
  - vm_compute. reflexivity.
Defined.

(** ** The theorems at sample inputs *)

(** The segmenter on [demo_log]: the line before the first marker is
    dropped, each step gets the lines from its marker on, and the marker met
    after the last step stays in that step's segment. *)
Example attach_demo :
  segments (_attach_logs_to_steps demo_steps demo_log)
  = [ Text.join (String Text.LF "") ["##[group]Set up job"; "ready"];
      Text.join (String Text.LF "")
        ["##[group]Run tests"; "ValueError: boom"; "  src/app.py:12";
         "  lib/util.py:7"; "##[group]Post"; "done"] ].
Proof. by vm_compute. Qed.

Lemma demo_steps_fresh : fresh demo_steps.
Proof. repeat constructor. Qed.

Lemma segmenter_segments_witness :
  length (segments (_attach_logs_to_steps demo_steps demo_log))
    <= count_markers (Text.split Text.LF demo_log)
  /\ Forall (fun seg => seg <> "")
       (segments (_attach_logs_to_steps demo_steps demo_log))
  /\ (demo_steps <> [] ->
      concat (Text.split Text.LF
                <$> segments (_attach_logs_to_steps demo_steps demo_log))
      = from_first_marker (Text.split Text.LF demo_log)).
Proof.
  apply (proj2 (segmenter_segments demo_steps demo_log)).
  exact demo_steps_fresh.
Defined.

Lemma marker_opens_segment_witness :
  length (segments (_attach_logs_to_steps demo_steps demo_log))
    = Nat.min (length demo_steps) (count_markers (Text.split Text.LF demo_log))
  /\ (forall k seg,
        segments (_attach_logs_to_steps demo_steps demo_log) !! k = Some seg ->
        exists m rest,
          Text.split Text.LF seg = m :: rest /\ is_marker m = true
          /\ (S k < length demo_steps -> Forall plain rest))
  /\ (demo_steps <> [] ->
      count_markers
        (concat (Text.split Text.LF
                   <$> segments (_attach_logs_to_steps demo_steps demo_log)))
      = count_markers (Text.split Text.LF demo_log))
  /\ (forall st line,
        length (steps st) <= current_step_idx st ->
        attach_line st line
        = mkSeg (current_step_idx st) (current_log_buffer st ++ [line])
                (steps st)).
Proof.
  apply (marker_opens_segment demo_steps demo_log).
  exact demo_steps_fresh.
Defined.

(** The extractor on [demo_lines]: one record, of the first signature that
    matches; two frames, the first one primary; the scan stops at the blank
    line. *)
Example parse_demo :
  parse_lines demo_lines
  = [ mkErrorContext "ValueError: boom" "python_error" (Some 12%Z)
        (Some "src/app.py") ["src/app.py:12"; "lib/util.py:7"]
        ["ValueError: boom"; "src/app.py:12"; "lib/util.py:7"; "late.py:1"] ].
Proof. by vm_compute. Qed.



Lemma parse_guard_witness :
  parse_step_logs
    (mkStepRun "Build" "completed" (Some "success") 1 None None
               (Some "error: unused variable"))
  = [].
Proof.
  apply parse_guard. left. simpl. discriminate.
Defined.

(** The interpreter on the replies of the specification's examples. *)
Example parse_reply_demo :
  _parse_llm_response 42 ["build"] ["build/test"] demo_errors demo_reply
  = Returned
      (mkFailureAnalysis 42 (PyStr (codes "S")) ["build"] ["build/test"]
         demo_errors (PyStr (codes "C")) (PyList [PyStr (codes "A")])
         (S754_finite false 8106479329266893 (-53))).
Proof. by vm_compute. Qed.

Example parse_reply_fenced :
  _parse_llm_response 42 [] [] [] (fenced demo_reply)
  = _parse_llm_response 42 [] [] [] demo_reply.
Proof. by vm_compute. Qed.

Example parse_reply_oops :
  _parse_llm_response 42 [] [] demo_errors (codes "oops")
  = Returned
      (mkFailureAnalysis 42 (PyStr (codes "Failed to parse LLM response"))
         [] [] demo_errors (PyStr (codes "oops"))
         (PyList [PyStr (codes "Review logs manually")]) Float.zero).
Proof. by vm_compute. Qed.


Lemma context_caps_errors_witness :
  length demo_errors = 7
  /\ length (List.filter is_error_heading
               (context_parts demo_run ["build"] ["build/test"] demo_errors))
     = 5
  /\ exists a,
       _parse_llm_response 42 ["build"] ["build/test"] demo_errors demo_reply
       = Returned a
       /\ error_contexts a = demo_errors.
Proof.
  split; [reflexivity|]. split.
  - apply (proj1 (proj2 (context_caps_errors demo_run ["build"] ["build/test"]
                           demo_errors))).
  - exists (mkFailureAnalysis 42%Z (PyStr (codes "S")) ["build"] ["build/test"]
              demo_errors (PyStr (codes "C")) (PyList [PyStr (codes "A")])
              (S754_finite false 8106479329266893 (-53))).
    split; [vm_compute; reflexivity|].
    apply (proj1 (proj2 (proj2 (context_caps_errors demo_run ["build"]
                                  ["build/test"] demo_errors))) 42%Z demo_reply).
    vm_compute. reflexivity.
Defined.
